(** * Analytics.ts: the quantitative risk-analytics engine

    A shallow embedding of the static methods of [class Analytics]
    (validateParams, calculateReturns, calculateGARCHVolatility,
    runMonteCarloSimulation, calculateStatistics, analyzeRegime) and the
    properties of them that the specification states.

    Numbers.  A JavaScript [number] is modelled by [num]: an exact rational,
    or one of the three special values NaN, +Infinity, -Infinity.  The
    special values follow IEEE 754 as JavaScript applies it (0/0 is NaN,
    x/0 is an infinity, Infinity - Infinity is NaN, every comparison with
    NaN is false).  Arithmetic on finite values is exact: rounding, overflow
    of finite results and the sign of zero are not modelled.

    Library functions.  [Math.sqrt], [Math.exp], [Math.log] and [Math.cos]
    are fixed by ECMAScript on the special values and are left to a
    [MathLib] record on finite arguments, so every theorem below holds for
    whatever these functions return there.

    Randomness.  [Math.random()] is the implicit global source of the code;
    here the stream of its answers is an explicit argument [rnd : nat -> num]
    and the number of draws made so far is threaded through the simulator.

    Counts.  [numPaths] and [numSteps] are integers ([Z]) and the counts
    of a histogram bin are naturals; all other numbers are [num].

    Exceptions.  A [throw new Error(message)] is [Throw (Error message)];
    reading a property of [undefined] is [Throw TypeError].  The code has
    no error classes of its own: the InputError and ParameterRangeError of
    the specification are both [Error] here. *)

From Stdlib Require Import QArith Qround Qabs ZArith List Bool Lia Lqa String.
From Stdlib Require Import Sorted Permutation DecimalString.
From Stdlib Require Import Floats Uint63.
Import ListNotations.

Local Open Scope Q_scope.

(* ================================================================== *)
(** ** JavaScript numbers *)

Inductive num : Type :=
| Fin (q : Q)
| PInf
| NInf
| NaN.

Definition Qlt_bool (x y : Q) : bool := negb (Qle_bool y x).

Definition ofZ (z : Z) : num := Fin (inject_Z z).
Definition ofNat (n : nat) : num := ofZ (Z.of_nat n).

Definition isNaN (a : num) : bool :=
  match a with NaN => true | _ => false end.

Definition isFinite (a : num) : bool :=
  match a with Fin _ => true | _ => false end.

(** [a < b] *)
Definition nlt (a b : num) : bool :=
  match a, b with
  | NaN, _ | _, NaN => false
  | Fin x, Fin y => Qlt_bool x y
  | NInf, NInf => false
  | NInf, _ => true
  | PInf, _ => false
  | Fin _, PInf => true
  | Fin _, NInf => false
  end.

(** [a <= b] *)
Definition nle (a b : num) : bool :=
  match a, b with
  | NaN, _ | _, NaN => false
  | Fin x, Fin y => Qle_bool x y
  | NInf, _ => true
  | PInf, PInf => true
  | PInf, _ => false
  | Fin _, PInf => true
  | Fin _, NInf => false
  end.

(** [a > b] and [a >= b] *)
Definition ngt (a b : num) : bool := nlt b a.
Definition nge (a b : num) : bool := nle b a.

(** [a === b] on numbers *)
Definition neqb (a b : num) : bool :=
  match a, b with
  | Fin x, Fin y => Qeq_bool x y
  | PInf, PInf | NInf, NInf => true
  | _, _ => false
  end.

Definition nneg (a : num) : num :=
  match a with
  | Fin x => Fin (- x)
  | PInf => NInf
  | NInf => PInf
  | NaN => NaN
  end.

Definition nadd (a b : num) : num :=
  match a, b with
  | NaN, _ | _, NaN => NaN
  | Fin x, Fin y => Fin (x + y)
  | PInf, NInf | NInf, PInf => NaN
  | PInf, _ | _, PInf => PInf
  | NInf, _ | _, NInf => NInf
  end.

Definition nsub (a b : num) : num := nadd a (nneg b).

(** The infinity of the sign of [q] times the sign [pos]; NaN when [q] is 0. *)
Definition infTimes (pos : bool) (q : Q) : num :=
  if Qeq_bool q 0 then NaN
  else if Bool.eqb pos (Qlt_bool 0 q) then PInf else NInf.

Definition nmul (a b : num) : num :=
  match a, b with
  | NaN, _ | _, NaN => NaN
  | Fin x, Fin y => Fin (x * y)
  | PInf, Fin y => infTimes true y
  | NInf, Fin y => infTimes false y
  | Fin x, PInf => infTimes true x
  | Fin x, NInf => infTimes false x
  | PInf, PInf | NInf, NInf => PInf
  | PInf, NInf | NInf, PInf => NInf
  end.

Definition ndiv (a b : num) : num :=
  match a, b with
  | NaN, _ | _, NaN => NaN
  | Fin x, Fin y =>
      if Qeq_bool y 0 then infTimes true x else Fin (x / y)
  | Fin _, _ => Fin 0
  | PInf, Fin y => if Qlt_bool y 0 then NInf else PInf
  | NInf, Fin y => if Qlt_bool y 0 then PInf else NInf
  | _, _ => NaN
  end.

Declare Scope num_scope.
Delimit Scope num_scope with num.
Bind Scope num_scope with num.
Infix "+" := nadd : num_scope.
Infix "-" := nsub : num_scope.
Infix "*" := nmul : num_scope.
Infix "/" := ndiv : num_scope.
Infix "<?" := nlt : num_scope.
Infix "<=?" := nle : num_scope.
Infix ">?" := ngt (at level 70) : num_scope.
Infix ">=?" := nge (at level 70) : num_scope.
Notation "- x" := (nneg x) : num_scope.

(** [Math.max], [Math.min], [Math.floor], [Math.pow] *)
Definition Math_max (a b : num) : num :=
  if isNaN a || isNaN b then NaN else if nlt a b then b else a.

Definition Math_min (a b : num) : num :=
  if isNaN a || isNaN b then NaN else if nlt b a then b else a.

Definition Math_floor (a : num) : num :=
  match a with
  | Fin x => ofZ (Qfloor x)
  | _ => a
  end.

Fixpoint Math_pow (a : num) (e : nat) : num :=
  match e with
  | O => Fin 1
  | S O => a
  | S e' => nmul a (Math_pow a e')
  end.

(** The library functions on finite arguments. *)
Record MathLib : Type := {
  sqrt_fin : Q -> num;
  exp_fin : Q -> num;
  log_fin : Q -> num;
  cos_fin : Q -> num
}.

Section MathFunctions.
Variable M : MathLib.

Definition Math_sqrt (a : num) : num :=
  match a with
  | Fin x => if Qlt_bool x 0 then NaN else sqrt_fin M x
  | PInf => PInf
  | _ => NaN
  end.

Definition Math_exp (a : num) : num :=
  match a with
  | Fin x => exp_fin M x
  | PInf => PInf
  | NInf => Fin 0
  | NaN => NaN
  end.

Definition Math_log (a : num) : num :=
  match a with
  | Fin x =>
      if Qlt_bool x 0 then NaN
      else if Qeq_bool x 0 then NInf else log_fin M x
  | PInf => PInf
  | _ => NaN
  end.

Definition Math_cos (a : num) : num :=
  match a with
  | Fin x => cos_fin M x
  | _ => NaN
  end.
End MathFunctions.

(** [Math.PI], the double nearest to pi. *)
Definition Math_PI : num := Fin (884279719003555 # 281474976710656).

(* ================================================================== *)
(** ** Exceptions *)

Inductive exn : Type :=
| Error (message : string)
| TypeError.

Inductive result (A : Type) : Type :=
| Ok (a : A)
| Throw (e : exn).
Arguments Ok {A} a.
Arguments Throw {A} e.

Definition bind {A B : Type} (r : result A) (k : A -> result B) : result B :=
  match r with
  | Ok a => k a
  | Throw e => Throw e
  end.

Notation "'do' x <- r ; k" := (bind r (fun x => k))
  (at level 10, x name, r at level 100, k at level 200).
Notation "r ;; k" := (bind r (fun _ => k))
  (at level 199, right associativity).

(** [if (c) throw new Error(msg)] *)
Definition throwIf (c : bool) (msg : string) : result unit :=
  if c then Throw (Error msg) else Ok tt.

Definition isOk {A : Type} (r : result A) : bool :=
  match r with Ok _ => true | Throw _ => false end.

(* ================================================================== *)
(** ** Types (types.ts) *)

Record PricePoint : Type := {
  date : Z;
  open : num;
  high : num;
  low : num;
  close : num;
  volume : num
}.

Record AnalyticsParams : Type := {
  alpha : num;
  beta : num;
  theta : num;
  switchProb : num;
  numPaths : Z;
  numSteps : Z
}.

Record Probabilities : Type := {
  upside20 : num;
  downside10 : num
}.

Record HistogramBin : Type := {
  bin : num;
  count : nat
}.

Record AnalyticsResult : Type := {
  paths : list (list num);
  probabilities : Probabilities;
  histogram : list HistogramBin;
  percentiles : list (string * option num);
  var95 : num;
  var99 : num;
  expectedShortfall95 : num;
  expectedShortfall99 : num;
  currentVolatility : num;
  trend : num;
  drift : num
}.

Record RegimePair : Type := {
  bull : num;
  bear : num
}.

Record RegimeAnalysis : Type := {
  bullMarketProbability : num;
  bearMarketProbability : num;
  regimeDuration : RegimePair;
  regimeVolatility : RegimePair;
  regimeReturns : RegimePair
}.

(* ================================================================== *)
(** ** Analytics *)

Local Open Scope string_scope.
Local Open Scope num_scope.

(** [a[i]] for a number [i]: an element when [i] is a non-negative integer
    below the length, [undefined] (here [None]) otherwise. *)
Definition arrayIndex (i : num) : option nat :=
  match i with
  | Fin q =>
      if Qle_bool 0 q && Qeq_bool q (inject_Z (Qfloor q))
      then Some (Z.to_nat (Qfloor q)) else None
  | _ => None
  end.

Definition arrayGet {A : Type} (a : list A) (i : num) : option A :=
  match arrayIndex i with
  | Some k => nth_error a k
  | None => None
  end.

(** [undefined] used as an operand of arithmetic or of a comparison. *)
Definition toNumber (v : option num) : num :=
  match v with
  | Some x => x
  | None => NaN
  end.

(** [a.reduce((sum, x) => sum + f(x), 0)] *)
Definition sumOf {A : Type} (f : A -> num) (a : list A) : num :=
  fold_left (fun sum x => sum + f x) a (Fin 0).

(** [a.slice(0, e)] for an end [e] that is a non-negative integer. *)
Definition slice0 {A : Type} (a : list A) (e : num) : list A :=
  match arrayIndex e with
  | Some k => firstn k a
  | None => []
  end.

(** [[...a].sort((x, y) => x - y)]: the stable sort that puts [y] before
    [x] exactly when the comparator's answer [x - y] is above 0.  The
    order it gives is the one of every conforming engine when the
    comparator is consistent, that is when no element is NaN. *)
Fixpoint sortInsert (x : num) (sorted : list num) : list num :=
  match sorted with
  | [] => [x]
  | y :: rest =>
      if x - y >? Fin 0 then y :: sortInsert x rest else x :: y :: rest
  end.

Fixpoint sortAscending (a : list num) : list num :=
  match a with
  | [] => []
  | x :: rest => sortInsert x (sortAscending rest)
  end.

Definition MIN_VARIANCE : num := Fin (1 # 100000000).
Definition MAX_VARIANCE : num := Fin 10000.
Definition MIN_PRICE : num := Fin (1 # 100).
Definition RISK_FREE_RATE : num := Fin (2 # 100).

Definition validateParams (params : AnalyticsParams) : result unit :=
  throwIf ((alpha params <? Fin 0) || (alpha params >? Fin 1))
    "Alpha must be between 0 and 1" ;;
  throwIf ((beta params <? Fin 0) || (beta params >? Fin 1))
    "Beta must be between 0 and 1" ;;
  throwIf (alpha params + beta params >=? Fin 1)
    "Alpha + Beta must be less than 1 for GARCH stability" ;;
  throwIf ((theta params <? Fin 0) || (theta params >? Fin 1))
    "Theta must be between 0 and 1" ;;
  throwIf ((switchProb params <? Fin 0) || (switchProb params >? Fin 1))
    "Switch probability must be between 0 and 1" ;;
  throwIf ((numPaths params <? 100)%Z || (numPaths params >? 10000)%Z)
    "Number of paths must be between 100 and 10000" ;;
  throwIf ((numSteps params <? 10)%Z || (numSteps params >? 1000)%Z)
    "Number of steps must be between 10 and 1000".

Section Engine.
Variable M : MathLib.

(** The body of the loop of [calculateReturns], from index [i] on, where
    [prev] is [prices[i - 1]] and [rest] is [prices[i..]]. *)
Fixpoint returnsLoop (prev : PricePoint) (rest : list PricePoint)
  : result (list num) :=
  match rest with
  | [] => Ok []
  | cur :: rest' =>
      throwIf (close prev <=? Fin 0)
        "Invalid price data: non-positive close price" ;;
      let ret := Math_log M (close cur / close prev) in
      do returns <- returnsLoop cur rest' ;
      Ok (ret :: returns)
  end.

Definition calculateReturns (prices : list PricePoint) : result (list num) :=
  throwIf (Nat.ltb (List.length prices) 2)
    "Need at least 2 price points to calculate returns" ;;
  match prices with
  | [] => Ok []
  | p0 :: rest => returnsLoop p0 rest
  end.

(** The recursion of [calculateGARCHVolatility] for [t = 1 .. n - 1];
    [shocks] is [returns[t - 1 ..]] and [prevVol] is [volatilities[t - 1]]. *)
Fixpoint garchLoop (omega alpha beta prevVol : num) (shocks : list num)
  : list num :=
  match shocks with
  | [] => []
  | r :: rest =>
      let variance :=
        omega + alpha * Math_pow r 2 + beta * Math_pow prevVol 2 in
      let boundedVariance :=
        Math_max (Math_min variance MAX_VARIANCE) MIN_VARIANCE in
      let vol := Math_sqrt M boundedVariance in
      vol :: garchLoop omega alpha beta vol rest
  end.

Definition calculateGARCHVolatility (returns : list num) (alpha beta : num)
  : result (list num) :=
  throwIf (Nat.eqb (List.length returns) 0) "No returns data provided" ;;
  throwIf ((alpha <? Fin 0) || (beta <? Fin 0) || (alpha + beta >=? Fin 1))
    "Invalid GARCH parameters: alpha + beta must be < 1" ;;
  let n := List.length returns in
  if Nat.eqb n 1 then
    let volatility :=
      Math_sqrt M
        (Math_max (Math_pow (toNumber (nth_error returns 0)) 2) MIN_VARIANCE)
    in Ok [volatility]
  else
    let meanReturn := sumOf (fun r => r) returns / ofNat n in
    let sampleVar :=
      sumOf (fun r => Math_pow (r - meanReturn) 2) returns
      / (ofNat n - Fin 1) in
    let adjustedSampleVar := Math_max sampleVar MIN_VARIANCE in
    let omega := adjustedSampleVar * (Fin 1 - alpha - beta) in
    let vol0 := Math_sqrt M adjustedSampleVar in
    Ok (vol0 :: garchLoop omega alpha beta vol0 (removelast returns)).

(** *** The Monte Carlo simulator *)

(** The answers of [Math.random()], in the order of the calls. *)
Variable rnd : nat -> num.

(** [randomNormal()] when [k] draws have been made: the sample and the
    number of draws made after it. *)
Definition randomNormal (k : nat) : num * nat :=
  let u := rnd k in
  let v := rnd (S k) in
  (Math_sqrt M (Fin (-2) * Math_log M u)
     * Math_cos M (Fin 2 * Math_PI * v),
   S (S k)).

Definition dt : num := Fin 1 / Fin 252.

(** The inner loop: [steps] more iterations from the state
    [(currentPrice, currentVolatility)]; the prices pushed, in order. *)
Fixpoint stepLoop (omega alpha beta drift : num) (steps : nat)
    (currentPrice currentVolatility : num) (k : nat) : list num * nat :=
  match steps with
  | O => ([], k)
  | S steps' =>
      let (z, k1) := randomNormal k in
      let ret :=
        drift * dt - Fin (1 # 2) * currentVolatility * currentVolatility * dt
        + currentVolatility * Math_sqrt M dt * z in
      let price := currentPrice * Math_exp M ret in
      let price := if price <? MIN_PRICE then MIN_PRICE else price in
      let variance :=
        omega + alpha * Math_pow ret 2
        + beta * Math_pow currentVolatility 2 in
      let boundedVariance :=
        Math_max (Math_min variance MAX_VARIANCE) MIN_VARIANCE in
      let vol := Math_sqrt M boundedVariance in
      let (pushed, k2) :=
        stepLoop omega alpha beta drift steps' price vol k1 in
      (price :: pushed, k2)
  end.

(** The outer loop: [n] more paths. *)
Fixpoint pathLoop (omega alpha beta drift : num) (numSteps : nat)
    (initialPrice initialVolatility : num) (n : nat) (k : nat)
  : list (list num) * nat :=
  match n with
  | O => ([], k)
  | S n' =>
      let (pushed, k1) :=
        stepLoop omega alpha beta drift numSteps
          initialPrice initialVolatility k in
      let pathPrices := initialPrice :: pushed in
      let (others, k2) :=
        pathLoop omega alpha beta drift numSteps
          initialPrice initialVolatility n' k1 in
      (pathPrices :: others, k2)
  end.

(** The paths built by [runMonteCarloSimulation] before it calls
    [calculateStatistics]. *)
Definition simulatePaths (initialPrice : num) (params : AnalyticsParams)
    (initialVolatility drift : num) : list (list num) :=
  let omega :=
    initialVolatility * initialVolatility
    * (Fin 1 - alpha params - beta params) in
  fst (pathLoop omega (alpha params) (beta params) drift
         (Z.to_nat (numSteps params)) initialPrice initialVolatility
         (Z.to_nat (numPaths params)) 0).

End Engine.

(** *** calculateStatistics *)

Definition numBins : nat := 50.

(** [histogram[binIndex].count++] *)
Fixpoint bumpAt (h : list HistogramBin) (k : nat)
  : option (list HistogramBin) :=
  match h, k with
  | [], _ => None
  | b :: rest, O => Some ({| bin := bin b; count := S (count b) |} :: rest)
  | b :: rest, S k' => option_map (cons b) (bumpAt rest k')
  end.

Definition bumpCount (h : list HistogramBin) (binIndex : num)
  : result (list HistogramBin) :=
  match arrayIndex binIndex with
  | Some k =>
      match bumpAt h k with
      | Some h' => Ok h'
      | None => Throw TypeError
      end
  | None => Throw TypeError
  end.

Definition binIndexOf (minPrice binSize price : num) : num :=
  Math_min (Math_floor ((price - minPrice) / binSize))
    (ofNat numBins - Fin 1).

(** [finalPrices.forEach(price => ...)] *)
Fixpoint fillHistogram (minPrice binSize : num) (h : list HistogramBin)
    (finalPrices : list num) : result (list HistogramBin) :=
  match finalPrices with
  | [] => Ok h
  | price :: rest =>
      do h' <- bumpCount h (binIndexOf minPrice binSize price) ;
      fillHistogram minPrice binSize h' rest
  end.

Definition percentileLevels : list nat := [5; 10; 25; 50; 75; 90; 95]%nat.

Definition percentileKey (p : nat) : string :=
  "p" ++ NilEmpty.string_of_uint (Nat.to_uint p).

Definition percentileIndex (numPaths : nat) (p : nat) : num :=
  Math_floor ((ofNat p / Fin 100) * (ofNat numPaths - Fin 1)).

(** The last element of a path; a path is never empty here (an empty one
    would give [undefined], which every use below reads as NaN). *)
Definition finalPrice (path : list num) : num := last path NaN.

Definition calculateStatistics (paths : list (list num)) (initialPrice : num)
  : result AnalyticsResult :=
  let numPaths := List.length paths in
  let finalPrices := map finalPrice paths in
  let upside20Count :=
    List.length
      (filter (fun price => price >=? initialPrice * Fin (12 # 10))
         finalPrices) in
  let downside10Count :=
    List.length
      (filter (fun price => price <=? initialPrice * Fin (9 # 10))
         finalPrices) in
  let probabilities :=
    {| upside20 := ofNat upside20Count / ofNat numPaths;
       downside10 := ofNat downside10Count / ofNat numPaths |} in
  let sortedPrices := sortAscending finalPrices in
  let minPrice := toNumber (arrayGet sortedPrices (Fin 0)) in
  let maxPrice :=
    toNumber (arrayGet sortedPrices
                (ofNat (List.length sortedPrices) - Fin 1)) in
  let binSize := (maxPrice - minPrice) / ofNat numBins in
  let histogram0 :=
    map (fun i => {| bin := minPrice + ofNat i * binSize; count := 0 |})
      (seq 0 numBins) in
  do histogram <- fillHistogram minPrice binSize histogram0 finalPrices ;
  let percentiles :=
    map (fun p =>
           (percentileKey p,
            arrayGet sortedPrices (percentileIndex numPaths p)))
      percentileLevels in
  let var95Index := Math_floor (Fin (5 # 100) * ofNat numPaths) in
  let var99Index := Math_floor (Fin (1 # 100) * ofNat numPaths) in
  let var95 := initialPrice - toNumber (arrayGet sortedPrices var95Index) in
  let var99 := initialPrice - toNumber (arrayGet sortedPrices var99Index) in
  let expectedShortfall95 :=
    initialPrice
    - sumOf (fun price => price) (slice0 sortedPrices (var95Index + Fin 1))
      / (var95Index + Fin 1) in
  let expectedShortfall99 :=
    initialPrice
    - sumOf (fun price => price) (slice0 sortedPrices (var99Index + Fin 1))
      / (var99Index + Fin 1) in
  Ok {| paths := paths;
        probabilities := probabilities;
        histogram := histogram;
        percentiles := percentiles;
        var95 := var95;
        var99 := var99;
        expectedShortfall95 := expectedShortfall95;
        expectedShortfall99 := expectedShortfall99;
        currentVolatility := Fin 0;
        trend := Fin 0;
        drift := Fin 0 |}.

Definition runMonteCarloSimulation (M : MathLib) (rnd : nat -> num)
    (initialPrice : num) (params : AnalyticsParams)
    (initialVolatility drift : num) : result AnalyticsResult :=
  validateParams params ;;
  throwIf (initialPrice <=? Fin 0) "Initial price must be positive" ;;
  throwIf (initialVolatility <=? Fin 0)
    "Initial volatility must be positive" ;;
  calculateStatistics
    (simulatePaths M rnd initialPrice params initialVolatility drift)
    initialPrice.

(** *** analyzeRegime *)

(** The state of the duration loop. *)
Record DurationState : Type := {
  currentRegime : num;
  currentDuration : nat;
  bullDurations : list nat;
  bearDurations : list nat
}.

(** [if (currentRegime > 0) bullDurations.push(d) else bearDurations.push(d)] *)
Definition pushDuration (st : DurationState) : DurationState :=
  if currentRegime st >? Fin 0 then
    {| currentRegime := currentRegime st;
       currentDuration := currentDuration st;
       bullDurations := bullDurations st ++ [currentDuration st];
       bearDurations := bearDurations st |}
  else
    {| currentRegime := currentRegime st;
       currentDuration := currentDuration st;
       bullDurations := bullDurations st;
       bearDurations := bearDurations st ++ [currentDuration st] |}.

Definition durationStep (st : DurationState) (regime : num) : DurationState :=
  if neqb regime (currentRegime st) then
    {| currentRegime := currentRegime st;
       currentDuration := S (currentDuration st);
       bullDurations := bullDurations st;
       bearDurations := bearDurations st |}
  else
    let st' := pushDuration st in
    {| currentRegime := regime;
       currentDuration := 1;
       bullDurations := bullDurations st';
       bearDurations := bearDurations st' |}.

Definition regimeDurations (regimes : list num) : DurationState :=
  let st0 :=
    {| currentRegime := toNumber (nth_error regimes 0);
       currentDuration := 1;
       bullDurations := [];
       bearDurations := [] |} in
  pushDuration (fold_left durationStep (tl regimes) st0).

(** [ds.length > 0 ? ds.reduce((sum, d) => sum + d, 0) / ds.length : 0] *)
Definition meanOrZero (xs : list num) : num :=
  if Nat.ltb 0 (List.length xs)
  then sumOf (fun x => x) xs / ofNat (List.length xs)
  else Fin 0.

(** [returns.filter((_, i) => keep(regimes[i]))] *)
Fixpoint filterByRegime (keep : num -> bool) (returns : list num)
    (regimes : list num) : list num :=
  match returns with
  | [] => []
  | r :: returns' =>
      let kept := filterByRegime keep returns' (tl regimes) in
      if keep (toNumber (nth_error regimes 0)) then r :: kept else kept
  end.

Section RegimeAnalyzer.
Variable M : MathLib.

(** [rs.length > 0 ? Math.sqrt(rs.reduce((sum, r) => sum +
    Math.pow(r - mean, 2), 0) / (rs.length - 1)) : 0] *)
Definition regimeStdDev (rs : list num) (mean : num) : num :=
  if Nat.ltb 0 (List.length rs)
  then Math_sqrt M
         (sumOf (fun r => Math_pow (r - mean) 2) rs
          / (ofNat (List.length rs) - Fin 1))
  else Fin 0.

Definition analyzeRegime (returns regimes : list num)
  : result RegimeAnalysis :=
  throwIf (negb (Nat.eqb (List.length returns) (List.length regimes)))
    "Returns and regimes arrays must have the same length" ;;
  let bullCount := List.length (filter (fun r => r >? Fin 0) regimes) in
  let bearCount := List.length (filter (fun r => r <? Fin 0) regimes) in
  let totalCount := List.length regimes in
  let bullMarketProbability := ofNat bullCount / ofNat totalCount in
  let bearMarketProbability := ofNat bearCount / ofNat totalCount in
  let st := regimeDurations regimes in
  let regimeDuration :=
    {| bull := meanOrZero (map ofNat (bullDurations st));
       bear := meanOrZero (map ofNat (bearDurations st)) |} in
  let bullReturns := filterByRegime (fun g => g >? Fin 0) returns regimes in
  let bearReturns := filterByRegime (fun g => g <? Fin 0) returns regimes in
  let regimeReturns :=
    {| bull := meanOrZero bullReturns; bear := meanOrZero bearReturns |} in
  let bullMean := meanOrZero bullReturns in
  let bearMean := meanOrZero bearReturns in
  let regimeVolatility :=
    {| bull := regimeStdDev bullReturns bullMean;
       bear := regimeStdDev bearReturns bearMean |} in
  Ok {| bullMarketProbability := bullMarketProbability;
        bearMarketProbability := bearMarketProbability;
        regimeDuration := regimeDuration;
        regimeVolatility := regimeVolatility;
        regimeReturns := regimeReturns |}.
End RegimeAnalyzer.

(* ================================================================== *)
(** ** Analytics: the other methods *)

Definition Math_abs (a : num) : num :=
  match a with
  | Fin x => Fin (Qabs x)
  | NInf => PInf
  | _ => a
  end.

(** [n] draws further in the stream of [Math.random()]. *)
Definition shift (rnd : nat -> num) (n : nat) : nat -> num :=
  fun i => rnd (n + i)%nat.

(** *** calculateTrendAndDrift *)

Module TD.
Record t : Type := { trend : num; drift : num }.
End TD.

(** The loop of the regression, from index [i] on. *)
Fixpoint regressionLoop (xMean yMean : num) (i : nat) (logPrices : list num)
    (numerator denominator : num) : num * num :=
  match logPrices with
  | [] => (numerator, denominator)
  | y :: rest =>
      let x := ofNat i in
      regressionLoop xMean yMean (S i) rest
        (numerator + (x - xMean) * (y - yMean))
        (denominator + Math_pow (x - xMean) 2)
  end.

Section TrendAndDrift.
Variable M : MathLib.

(** [prices.map(p => { if (p.close <= 0) throw ...; return Math.log(p.close) })] *)
Fixpoint logPricesOf (prices : list PricePoint) : result (list num) :=
  match prices with
  | [] => Ok []
  | p :: rest =>
      throwIf (close p <=? Fin 0)
        "Invalid price data: non-positive close price" ;;
      let y := Math_log M (close p) in
      do logs <- logPricesOf rest ;
      Ok (y :: logs)
  end.

Definition calculateTrendAndDrift (prices : list PricePoint) (theta : num)
  : result TD.t :=
  throwIf (Nat.ltb (List.length prices) 2)
    "Need at least 2 price points to calculate trend" ;;
  throwIf ((theta <? Fin 0) || (theta >? Fin 1))
    "Theta must be between 0 and 1" ;;
  let n := List.length prices in
  do logPrices <- logPricesOf prices ;
  let xMean := (ofNat n - Fin 1) / Fin 2 in
  let yMean := sumOf (fun y => y) logPrices / ofNat n in
  let (numerator, denominator) :=
    regressionLoop xMean yMean 0 logPrices (Fin 0) (Fin 0) in
  match nth_error prices (n - 1) with
  | None => Throw TypeError
  | Some lastPoint =>
      if Math_abs denominator <? Fin (1 # 10000000000) then
        Ok {| TD.trend := close lastPoint; TD.drift := Fin 0 |}
      else
        let slope := numerator / denominator in
        let trend := Math_exp M (slope * ofNat n) in
        let currentPrice := close lastPoint in
        let drift := theta * (trend - currentPrice) / currentPrice in
        Ok {| TD.trend := trend; TD.drift := drift |}
  end.
End TrendAndDrift.

(** *** generateMarkovRegime *)

(** The loop of [generateMarkovRegime]: [steps] more labels, the next
    draw being draw [k]. *)
Fixpoint regimeLoop (rnd : nat -> num) (switchProb : num) (steps : nat)
    (currentRegime : num) (k : nat) : list num :=
  match steps with
  | O => []
  | S steps' =>
      currentRegime
        :: regimeLoop rnd switchProb steps'
             (if rnd k <? switchProb then - currentRegime else currentRegime)
             (S k)
  end.

Definition generateMarkovRegime (rnd : nat -> num) (returns : list num)
    (switchProb : num) : result (list num) :=
  throwIf (Nat.eqb (List.length returns) 0) "No returns data provided" ;;
  throwIf ((switchProb <? Fin 0) || (switchProb >? Fin 1))
    "Switch probability must be between 0 and 1" ;;
  let n := List.length returns in
  let currentRegime :=
    if toNumber (nth_error returns (List.length returns - 1)) >=? Fin 0
    then Fin 1 else Fin (-1) in
  Ok (regimeLoop rnd switchProb n currentRegime 0).

(** *** calculateMaxDrawdown and calculateMaxDrawdownFromPrices *)

(** The loop over the prices of one path: the drawdown after it. *)
Fixpoint drawdownLoop (peak drawdown : num) (prices : list num) : num :=
  match prices with
  | [] => drawdown
  | price :: rest =>
      let peak := if price >? peak then price else peak in
      let currentDrawdown := (peak - price) / peak in
      let drawdown :=
        if currentDrawdown >? drawdown then currentDrawdown else drawdown in
      drawdownLoop peak drawdown rest
  end.

Definition calculateMaxDrawdown (paths : list (list num)) (initialPrice : num)
  : num :=
  fold_left
    (fun maxDrawdown path =>
       let drawdown := drawdownLoop initialPrice (Fin 0) path in
       if drawdown >? maxDrawdown then drawdown else maxDrawdown)
    paths (Fin 0).

Definition calculateMaxDrawdownFromPrices (prices : list PricePoint)
  : result num :=
  match prices with
  | [] => Throw TypeError
  | first :: _ => Ok (drawdownLoop (close first) (Fin 0) (map close prices))
  end.

(** *** runStressTest *)

Record StressTestScenario : Type := {
  name : string;
  volatilityShock : num;
  driftShock : num;
  correlationShock : num
}.

Module StressTestResult.
Record t : Type := {
  scenario : StressTestScenario;
  var95 : num;
  var99 : num;
  expectedShortfall95 : num;
  expectedShortfall99 : num;
  probabilityOfLoss : num;
  maxDrawdown : num
}.
End StressTestResult.

(** The draws that one successful call of [runMonteCarloSimulation]
    makes. *)
Definition drawsOf (params : AnalyticsParams) : nat :=
  (2 * Z.to_nat (numSteps params) * Z.to_nat (numPaths params))%nat.

(** [runStressTest] when [k] draws have been made. *)
Fixpoint runStressTest (M : MathLib) (rnd : nat -> num) (k : nat)
    (initialPrice : num) (params : AnalyticsParams)
    (initialVolatility drift : num) (scenarios : list StressTestScenario)
  : result (list StressTestResult.t) :=
  match scenarios with
  | [] => Ok []
  | scenario :: rest =>
      let stressedParams := params in
      let stressedVolatility := initialVolatility * volatilityShock scenario in
      let stressedDrift := drift + driftShock scenario in
      do result <-
        runMonteCarloSimulation M (shift rnd k) initialPrice stressedParams
          stressedVolatility stressedDrift ;
      let finalPrices := map finalPrice (paths result) in
      let probabilityOfLoss :=
        ofNat (List.length (filter (fun price => price <? initialPrice)
                              finalPrices))
        / ofNat (List.length finalPrices) in
      let maxDrawdown := calculateMaxDrawdown (paths result) initialPrice in
      do results <-
        runStressTest M rnd (k + drawsOf params) initialPrice params
          initialVolatility drift rest ;
      Ok ({| StressTestResult.scenario := scenario;
             StressTestResult.var95 := var95 result;
             StressTestResult.var99 := var99 result;
             StressTestResult.expectedShortfall95 := expectedShortfall95 result;
             StressTestResult.expectedShortfall99 := expectedShortfall99 result;
             StressTestResult.probabilityOfLoss := probabilityOfLoss;
             StressTestResult.maxDrawdown := maxDrawdown |} :: results)
  end.

(** *** calculatePerformanceMetrics *)

Module PerformanceMetrics.
Record t : Type := {
  sharpeRatio : num;
  sortinoRatio : num;
  maxDrawdown : num;
  calmarRatio : num;
  informationRatio : num;
  beta : num;
  alpha : num;
  treynorRatio : num
}.
End PerformanceMetrics.

Section Performance.
Variable M : MathLib.

(** [benchmarkReturns] is [None] when the argument is left out. *)
Definition calculatePerformanceMetrics (prices : list PricePoint)
    (benchmarkReturns : option (list num)) : result PerformanceMetrics.t :=
  do returns <- calculateReturns M prices ;
  let n := ofNat (List.length returns) in
  let meanReturn := sumOf (fun r => r) returns / n in
  let volatility :=
    Math_sqrt M
      (sumOf (fun r => Math_pow (r - meanReturn) 2) returns / (n - Fin 1)) in
  let annualizedReturn := meanReturn * Fin 252 in
  let annualizedVolatility := volatility * Math_sqrt M (Fin 252) in
  let sharpeRatio := (annualizedReturn - RISK_FREE_RATE) / annualizedVolatility in
  let downsideReturns := filter (fun r => r <? meanReturn) returns in
  let downsideDeviation :=
    Math_sqrt M
      (sumOf (fun r => Math_pow (r - meanReturn) 2) downsideReturns
       / ofNat (List.length downsideReturns)) in
  let sortinoRatio :=
    (annualizedReturn - RISK_FREE_RATE)
    / (downsideDeviation * Math_sqrt M (Fin 252)) in
  do maxDrawdown <- calculateMaxDrawdownFromPrices prices ;
  let calmarRatio := annualizedReturn / Math_abs maxDrawdown in
  match benchmarkReturns with
  | Some bench =>
      if Nat.eqb (List.length bench) (List.length returns) then
        let nb := ofNat (List.length bench) in
        let benchmarkMean := sumOf (fun r => r) bench / nb in
        let benchmarkVar :=
          sumOf (fun r => Math_pow (r - benchmarkMean) 2) bench
          / (nb - Fin 1) in
        let covariance :=
          sumOf (fun rb => (fst rb - meanReturn) * (snd rb - benchmarkMean))
            (combine returns bench)
          / (n - Fin 1) in
        let beta := covariance / benchmarkVar in
        let alpha :=
          annualizedReturn
          - (RISK_FREE_RATE
             + beta * (benchmarkMean * Fin 252 - RISK_FREE_RATE)) in
        let trackingError :=
          Math_sqrt M
            (sumOf (fun rb => Math_pow (fst rb - snd rb) 2)
               (combine returns bench) / n) in
        let informationRatio :=
          (annualizedReturn - benchmarkMean * Fin 252)
          / (trackingError * Math_sqrt M (Fin 252)) in
        let treynorRatio := (annualizedReturn - RISK_FREE_RATE) / beta in
        Ok {| PerformanceMetrics.sharpeRatio := sharpeRatio;
              PerformanceMetrics.sortinoRatio := sortinoRatio;
              PerformanceMetrics.maxDrawdown := maxDrawdown;
              PerformanceMetrics.calmarRatio := calmarRatio;
              PerformanceMetrics.informationRatio := informationRatio;
              PerformanceMetrics.beta := beta;
              PerformanceMetrics.alpha := alpha;
              PerformanceMetrics.treynorRatio := treynorRatio |}
      else
        Ok {| PerformanceMetrics.sharpeRatio := sharpeRatio;
              PerformanceMetrics.sortinoRatio := sortinoRatio;
              PerformanceMetrics.maxDrawdown := maxDrawdown;
              PerformanceMetrics.calmarRatio := calmarRatio;
              PerformanceMetrics.informationRatio := Fin 0;
              PerformanceMetrics.beta := Fin 1;
              PerformanceMetrics.alpha := Fin 0;
              PerformanceMetrics.treynorRatio := Fin 0 |}
  | None =>
      Ok {| PerformanceMetrics.sharpeRatio := sharpeRatio;
            PerformanceMetrics.sortinoRatio := sortinoRatio;
            PerformanceMetrics.maxDrawdown := maxDrawdown;
            PerformanceMetrics.calmarRatio := calmarRatio;
            PerformanceMetrics.informationRatio := Fin 0;
            PerformanceMetrics.beta := Fin 1;
            PerformanceMetrics.alpha := Fin 0;
            PerformanceMetrics.treynorRatio := Fin 0 |}
  end.
End Performance.

(** *** generateSyntheticWalk and testPipeline *)

(** The loop of [generateSyntheticWalk] from index [i] on, the next draw
    being draw [k].  The date of point [i] is day [i + 1] of 2024. *)
Fixpoint syntheticLoop (M : MathLib) (rnd : nat -> num)
    (meanReturn volatility : num) (remaining i : nat) (currentPrice : num)
    (k : nat) : list PricePoint :=
  match remaining with
  | O => []
  | S remaining' =>
      let (currentPrice, k) :=
        if Nat.ltb 0 i then
          let u1 := rnd k in
          let u2 := rnd (S k) in
          let z :=
            Math_sqrt M (Fin (-2) * Math_log M u1)
            * Math_cos M (Fin 2 * Math_PI * u2) in
          let return_ := meanReturn + volatility * z in
          (currentPrice * Math_exp M return_, S (S k))
        else (currentPrice, k) in
      let noise := Fin (1 # 1000) in
      {| date := Z.of_nat (i + 1);
         open := currentPrice * (Fin 1 + (rnd k - Fin (1 # 2)) * noise);
         high := currentPrice * (Fin 1 + Math_abs (rnd (k + 1)%nat) * noise);
         low := currentPrice * (Fin 1 - Math_abs (rnd (k + 2)%nat) * noise);
         close := currentPrice;
         volume := Math_floor (rnd (k + 3)%nat * Fin 1000000) |}
        :: syntheticLoop M rnd meanReturn volatility remaining' (S i)
             currentPrice (k + 4)
  end.

Definition generateSyntheticWalk (M : MathLib) (rnd : nat -> num)
    (numPoints : nat) (meanReturn volatility : num) : list PricePoint :=
  syntheticLoop M rnd meanReturn volatility numPoints 0 (Fin 100) 0.

(** The draws that [generateSyntheticWalk] makes for [numPoints] points. *)
Definition walkDraws (numPoints : nat) : nat :=
  match numPoints with
  | O => O
  | S n => (4 + 6 * n)%nat
  end.

Record PipelineReport : Type := {
  success : bool;
  errors : list string
}.

(** [error.message]; the text of an engine's TypeError is not modelled. *)
Definition exnMessage (e : exn) : string :=
  match e with
  | Error message => message
  | TypeError => "TypeError"
  end.

Definition pipelineParams : AnalyticsParams :=
  {| alpha := Fin (1 # 10); beta := Fin (8 # 10); theta := Fin (5 # 100);
     switchProb := Fin (5 # 100); numPaths := 10; numSteps := 10 |}.

(** The validation checks of [testPipeline] on the simulation's result. *)
Definition pipelineChecks (result : AnalyticsResult) : list string :=
  (if negb (Nat.eqb (List.length (paths result)) 10)
      || negb (Nat.eqb (List.length (hd [] (paths result))) 11)
   then ["Invalid path dimensions"] else [])
  ++ (if (upside20 (probabilities result) <? Fin 0)
         || (upside20 (probabilities result) >? Fin 1)
      then ["Invalid upside probability"] else [])
  ++ (if (downside10 (probabilities result) <? Fin 0)
         || (downside10 (probabilities result) >? Fin 1)
      then ["Invalid downside probability"] else [])
  ++ (if (var95 result <? Fin 0) || (var99 result <? Fin 0)
      then ["Invalid VaR values"] else [])
  ++ (if negb (forallb (fun price => price >? Fin 0) (List.concat (paths result)))
      then ["Non-positive prices detected"] else []).

(** The errors that [testPipeline] collects: the ones pushed in the [try]
    block and, when the block throws, the message of the exception. *)
Definition pipelineErrors (M : MathLib) (rnd : nat -> num) : list string :=
  let prices :=
    generateSyntheticWalk M rnd 100 (Fin (1 # 1000)) (Fin (1 # 100)) in
  match calculateReturns M prices with
  | Throw e => [exnMessage e]
  | Ok returns =>
  match calculateGARCHVolatility M returns (Fin (1 # 10)) (Fin (8 # 10)) with
  | Throw e => [exnMessage e]
  | Ok volatilities =>
  match calculateTrendAndDrift M prices (Fin (5 # 100)) with
  | Throw e => [exnMessage e]
  | Ok td =>
  match generateMarkovRegime (shift rnd (walkDraws 100)) returns
          (Fin (5 # 100)) with
  | Throw e => [exnMessage e]
  | Ok regimes =>
  match nth_error prices (List.length prices - 1) with
  | None => [exnMessage TypeError]
  | Some lastPoint =>
  match
    runMonteCarloSimulation M
      (shift rnd (walkDraws 100 + List.length returns))
      (close lastPoint) pipelineParams
      (toNumber (nth_error volatilities (List.length volatilities - 1)))
      (TD.drift td)
  with
  | Throw e => [exnMessage e]
  | Ok result =>
      let errors1 := pipelineChecks result in
      match calculatePerformanceMetrics M prices None with
      | Throw e => (errors1 ++ [exnMessage e])%list
      | Ok performanceMetrics =>
          let errors2 :=
            (errors1
             ++ (if isNaN (PerformanceMetrics.sharpeRatio performanceMetrics)
                 then ["Invalid Sharpe ratio"] else []))%list in
          match analyzeRegime M returns regimes with
          | Throw e => (errors2 ++ [exnMessage e])%list
          | Ok regimeAnalysis =>
              (errors2
               ++ (if negb (neqb (bullMarketProbability regimeAnalysis
                                  + bearMarketProbability regimeAnalysis)
                              (Fin 1))
                   then ["Invalid regime probabilities"] else []))%list
          end
      end
  end end end end end end.

Definition testPipeline (M : MathLib) (rnd : nat -> num) : PipelineReport :=
  let errors := pipelineErrors M rnd in
  {| success := Nat.eqb (List.length errors) 0; errors := errors |}.

(* ================================================================== *)
(** ** A library and a random stream to run the model on

    [toyMath] answers on a grid of ten-thousandths (a two-term expansion of
    the exponential, the identity for the square root, and so on); it
    stands in for the engine's functions only where a theorem is run on a
    concrete input, and no theorem depends on it otherwise. *)

Definition grid (x : Q) : num :=
  Fin (Qred (inject_Z (Qfloor (x * 10000)) / 10000)).

Definition toyMath : MathLib := {|
  sqrt_fin := fun x => grid x;
  exp_fin := fun x => grid (1 + x);
  log_fin := fun x => grid (x - 1);
  cos_fin := fun x => grid (1 - x / 100)
|}.

(** A stream that cycles through 1/17, 2/17, ..., 16/17 in steps of 5. *)
Definition toyRandom (k : nat) : num :=
  Fin (Qred (inject_Z (1 + Z.of_nat (5 * k) mod 16) / 17)).

Definition point (c : Q) : PricePoint :=
  {| date := 0; open := Fin c; high := Fin c; low := Fin c;
     close := Fin c; volume := Fin 0 |}.

Definition testParams : AnalyticsParams :=
  {| alpha := Fin (1 # 10); beta := Fin (8 # 10); theta := Fin (5 # 100);
     switchProb := Fin (5 # 100); numPaths := 100; numSteps := 10 |}.

(* ================================================================== *)
(** ** Names used in the statements *)

(** [a] lies in the interval [0, 1]. *)
Definition inUnit (a : num) : bool := (Fin 0 <=? a) && (a <=? Fin 1).

Definition garchRangeError : exn :=
  Error "Invalid GARCH parameters: alpha + beta must be < 1".

Definition nleP (a b : num) : Prop := (a <=? b) = true.

Definition noNaN (a : list num) : Prop := Forall (fun x => isNaN x = false) a.

Definition finalPrices (ps : list (list num)) : list num := map finalPrice ps.

Definition sortedPrices (ps : list (list num)) : list num :=
  sortAscending (finalPrices ps).

(** The least and the greatest price as [calculateStatistics] reads them
    off the sorted array. *)
Definition minOf (sorted : list num) : num :=
  toNumber (arrayGet sorted (Fin 0)).

Definition maxOf (sorted : list num) : num :=
  toNumber (arrayGet sorted (ofNat (List.length sorted) - Fin 1)).

(** The empty histogram that the loop starts from. *)
Definition emptyHistogram (minPrice binSize : num) : list HistogramBin :=
  map (fun i => {| bin := minPrice + ofNat i * binSize; count := 0 |})
    (seq 0 numBins).

Definition counts (h : list HistogramBin) : list nat := map count h.

(** [price] is counted in bin [k]. *)
Definition lands (minPrice binSize : num) (k : nat) (price : num) : bool :=
  match arrayIndex (binIndexOf minPrice binSize price) with
  | Some j => Nat.eqb j k
  | None => false
  end.

(** The width of a bin when the extreme prices are finite. *)
Definition binWidth (lo hi : Q) : Q := (hi + - lo) / inject_Z (Z.of_nat numBins).

(** Bin [k] of 50 equal bins over [lo, hi]: closed on the left, open on
    the right, except the last one, which holds [hi] as well. *)
Definition inBin (lo hi : Q) (k : nat) (p : num) : bool :=
  match p with
  | Fin q =>
      Nat.ltb k numBins
      && Qle_bool (lo + inject_Z (Z.of_nat k) * binWidth lo hi) q
      && (if Nat.ltb k (numBins - 1)
          then Qlt_bool q (lo + inject_Z (Z.of_nat (S k)) * binWidth lo hi)
          else Qle_bool q hi)
  | _ => false
  end.

(** The variance under a square root, after the clamp: NaN, or between
    the floor and the ceiling. *)
Definition clamped (b : num) : Prop :=
  isNaN b = true \/ ((MIN_VARIANCE <=? b) = true /\ (b <=? MAX_VARIANCE) = true).

(** The same without the ceiling, as for the first volatility. *)
Definition floored (b : num) : Prop :=
  isNaN b = true \/ (MIN_VARIANCE <=? b) = true.

(** [g] is one of the two regime labels, +1 and -1. *)
Definition isLabel (g : num) : bool := neqb g (Fin 1) || neqb g (Fin (-1)).

Definition isBull (g : num) : bool := g >? Fin 0.
Definition isBear (g : num) : bool := g <? Fin 0.

(** The label that the generator starts from: +1 when the last return is
    0 or more, -1 otherwise (also when it is NaN). *)
Definition initialRegime (returns : list num) : num :=
  if toNumber (nth_error returns (List.length returns - 1)) >=? Fin 0
  then Fin 1 else Fin (-1).

(** The state of the loop after a prefix: the runs closed so far and the
    open run account for every label seen, regime by regime. *)
Definition durationInvariant (seen : list num) (st : DurationState) : Prop :=
  (list_sum (bullDurations st)
   + (if isBull (currentRegime st) then currentDuration st else 0)
   = List.length (filter isBull seen))%nat /\
  (list_sum (bearDurations st)
   + (if isBull (currentRegime st) then 0 else currentDuration st)
   = List.length (filter (fun g => negb (isBull g)) seen))%nat.

(** A number that is 0 or more; a number above 0; a number in [0, 1). *)
Definition nonneg (x : num) : Prop := (Fin 0 <=? x) = true.

Definition positiveNum (x : num) : Prop := (Fin 0 <? x) = true.

Definition unitFraction (x : num) : Prop :=
  exists q, x = Fin q /\ (0 <= q)%Q /\ (q < 1)%Q.

(** A number in [0, 1]. *)
Definition probability (x : num) : Prop :=
  exists q, x = Fin q /\ (0 <= q)%Q /\ (q <= 1)%Q.

(** *** The index computations in double precision

    The indices that [calculateStatistics] reads the sorted array at are
    products of doubles.  These definitions compute them on IEEE 754
    binary64 numbers, to compare them with the exact ones. *)

Definition doubleOfZ (n : Z) : float := PrimFloat.of_uint63 (Uint63.of_Z n).

(** [Math.floor(x)] is [k]: [k <= x < k + 1]. *)
Definition doubleFloorIs (x : float) (k : Z) : bool :=
  PrimFloat.leb (doubleOfZ k) x && PrimFloat.ltb x (doubleOfZ (k + 1)).

(** The doubles that the literals [0.05] and [0.01] denote. *)
Definition double_0_05 : float := 0x1.999999999999ap-5%float.
Definition double_0_01 : float := 0x1.47ae147ae147bp-7%float.

(** For an array of [n] terminal prices, each index computed on doubles is
    the exact floor: of [n / 20], of [n / 100] and of [p (n - 1) / 100]. *)
Definition doubleIndicesAgree (n : Z) : bool :=
  doubleFloorIs (PrimFloat.mul double_0_05 (doubleOfZ n)) (n / 20)%Z
  && doubleFloorIs (PrimFloat.mul double_0_01 (doubleOfZ n)) (n / 100)%Z
  && forallb
       (fun p =>
          doubleFloorIs
            (PrimFloat.mul
               (PrimFloat.div (doubleOfZ p) (doubleOfZ 100))
               (PrimFloat.sub (doubleOfZ n) (doubleOfZ 1)))
            (p * (n - 1) / 100)%Z)
       (map Z.of_nat percentileLevels).

(** [bullCount / totalCount + bearCount / totalCount === 1] on doubles,
    for [bull] labels +1 among [total] labels that are +1 or -1. *)
Definition doubleProbabilitiesSum (total bull : Z) : bool :=
  PrimFloat.eqb
    (PrimFloat.add
       (PrimFloat.div (doubleOfZ bull) (doubleOfZ total))
       (PrimFloat.div (doubleOfZ (total - bull)) (doubleOfZ total)))
    (doubleOfZ 1).

Definition upTo (n : Z) : list Z := map Z.of_nat (seq 0 (Z.to_nat (n + 1))).

(** The numbers of paths that [validateParams] lets through. *)
Definition validPathCounts : list Z :=
  map (fun k => (100 + Z.of_nat k)%Z) (seq 0 (Z.to_nat 9901)).

Section StepFunctions.
Variable M : MathLib.
Variables omega a b dr : num.

(** One iteration of the inner loop, read off [stepLoop]. *)
Definition stepReturn (rnd : nat -> num) (v : num) (k : nat) : num :=
  dr * dt - Fin (1 # 2) * v * v * dt
  + v * Math_sqrt M dt * fst (randomNormal M rnd k).

Definition stepPrice (rnd : nat -> num) (p v : num) (k : nat) : num :=
  let price := p * Math_exp M (stepReturn rnd v k) in
  if price <? MIN_PRICE then MIN_PRICE else price.

Definition stepVol (rnd : nat -> num) (v : num) (k : nat) : num :=
  Math_sqrt M
    (Math_max
       (Math_min
          (omega + a * Math_pow (stepReturn rnd v k) 2 + b * Math_pow v 2)
          MAX_VARIANCE)
       MIN_VARIANCE).

End StepFunctions.

(* ================================================================== *)
(** ** Comparisons on rationals and on numbers *)

Lemma Qlt_bool_iff (x y : Q) : Qlt_bool x y = true <-> (x < y)%Q.
Proof.
  unfold Qlt_bool. rewrite negb_true_iff, <- not_true_iff_false, Qle_bool_iff.
  split; [apply Qnot_le_lt | apply Qlt_not_le].
Qed.

Lemma Qlt_bool_false (x y : Q) : Qlt_bool x y = false <-> (y <= x)%Q.
Proof.
  unfold Qlt_bool. rewrite negb_false_iff. apply Qle_bool_iff.
Qed.

Lemma Qle_bool_false (x y : Q) : Qle_bool x y = false <-> (y < x)%Q.
Proof.
  rewrite <- not_true_iff_false, Qle_bool_iff.
  split; [apply Qnot_le_lt | apply Qlt_not_le].
Qed.

Lemma Qeq_bool_false (x y : Q) : Qeq_bool x y = false <-> ~ (x == y)%Q.
Proof.
  rewrite <- not_true_iff_false, Qeq_bool_iff. tauto.
Qed.

(** Turn every boolean comparison of rationals in the goal and in the
    hypotheses into the proposition it decides. *)
Ltac qprops :=
  repeat match goal with
    | H : Qlt_bool _ _ = true |- _ => apply Qlt_bool_iff in H
    | H : Qlt_bool _ _ = false |- _ => apply Qlt_bool_false in H
    | H : Qle_bool _ _ = true |- _ => apply Qle_bool_iff in H
    | H : Qle_bool _ _ = false |- _ => apply Qle_bool_false in H
    | H : Qeq_bool _ _ = true |- _ => apply Qeq_bool_iff in H
    | H : Qeq_bool _ _ = false |- _ => apply Qeq_bool_false in H
    | |- Qlt_bool _ _ = true => apply Qlt_bool_iff
    | |- Qlt_bool _ _ = false => apply Qlt_bool_false
    | |- Qle_bool _ _ = true => apply Qle_bool_iff
    | |- Qle_bool _ _ = false => apply Qle_bool_false
    | |- Qeq_bool _ _ = true => apply Qeq_bool_iff
    | |- Qeq_bool _ _ = false => apply Qeq_bool_false
    end.

(** Case analysis on the first boolean comparison of rationals that the
    goal branches on. *)
Ltac qcase :=
  match goal with
  | |- context [Qlt_bool ?x ?y] => destruct (Qlt_bool x y) eqn:?
  | |- context [Qle_bool ?x ?y] => destruct (Qle_bool x y) eqn:?
  | |- context [Qeq_bool ?x ?y] => destruct (Qeq_bool x y) eqn:?
  end.

Lemma nmul_NaN_l (a : num) : NaN * a = NaN.
Proof. reflexivity. Qed.

Lemma nlt_NaN_l (a : num) : (NaN <? a) = false.
Proof. reflexivity. Qed.

Lemma nle_nlt_total (a b : num) :
  isNaN a = false -> isNaN b = false -> (a <? b) = false -> (b <=? a) = true.
Proof.
  destruct a, b; simpl; try congruence; intros _ _ H; qprops; assumption.
Qed.

Lemma nle_not_NaN (a b : num) :
  (a <=? b) = true -> isNaN a = false /\ isNaN b = false.
Proof. destruct a, b; simpl; intros; try discriminate; auto. Qed.

Lemma nle_trans (a b c : num) :
  (a <=? b) = true -> (b <=? c) = true -> (a <=? c) = true.
Proof.
  destruct a, b, c; simpl; try congruence; intros; qprops.
  eapply Qle_trans; eassumption.
Qed.

Lemma nle_refl (a : num) : isNaN a = false -> (a <=? a) = true.
Proof. destruct a; simpl; try congruence; intros; qprops. apply Qle_refl. Qed.

(* ================================================================== *)
(** ** The exception monad *)

Lemma bind_Ok {A B : Type} (r : result A) (k : A -> result B) (b : B) :
  bind r k = Ok b -> exists a, r = Ok a /\ k a = Ok b.
Proof. destruct r; simpl; [eauto | discriminate]. Qed.

Lemma throwIf_Ok (c : bool) (msg : string) (u : unit) :
  throwIf c msg = Ok u -> c = false.
Proof. destruct c; simpl; [discriminate | reflexivity]. Qed.

Lemma throwIf_false (msg : string) : throwIf false msg = Ok tt.
Proof. reflexivity. Qed.

(** Split [bind r k = Ok b] in a hypothesis into its two parts, as often
    as it applies, and turn the guards that passed into equations. *)
Ltac inv_bind :=
  repeat match goal with
    | H : bind _ _ = Ok _ |- _ =>
        let a := fresh "a" in
        let Ha := fresh "Ha" in
        apply bind_Ok in H; destruct H as [a [Ha H]]
    | H : throwIf _ _ = Ok _ |- _ => apply throwIf_Ok in H
    end.

(* ================================================================== *)
(** ** calculateReturns *)

Section ReturnsFacts.
Variable M : MathLib.

Lemma returnsLoop_length (rest : list PricePoint) :
  forall prev returns,
    returnsLoop M prev rest = Ok returns ->
    List.length returns = List.length rest.
Proof.
  induction rest as [| cur rest IH]; simpl; intros prev returns H.
  - injection H as <-. reflexivity.
  - inv_bind. injection H as <-. simpl. f_equal. eauto.
Qed.

(** The number of returns is the number of prices minus one. *)
Lemma calculateReturns_length (prices : list PricePoint) (returns : list num) :
  calculateReturns M prices = Ok returns ->
  List.length returns = (List.length prices - 1)%nat.
Proof.
  unfold calculateReturns. intros H. inv_bind.
  destruct prices as [| p0 rest]; [discriminate |].
  apply returnsLoop_length in H. simpl. lia.
Qed.

(** Return [i] is the logarithm of the quotient of close [i + 1] and
    close [i]. *)
Lemma returnsLoop_nth (rest : list PricePoint) :
  forall prev returns i p q,
    returnsLoop M prev rest = Ok returns ->
    nth_error (prev :: rest) i = Some p ->
    nth_error (prev :: rest) (S i) = Some q ->
    nth_error returns i = Some (Math_log M (close q / close p)).
Proof.
  induction rest as [| cur rest IH]; intros prev returns i p q H Hp Hq.
  - destruct i; simpl in Hq; discriminate.
  - simpl in H. inv_bind. injection H as <-.
    destruct i as [| i].
    + simpl in Hp, Hq. injection Hp as <-. injection Hq as <-. reflexivity.
    + simpl. eapply IH; eauto.
Qed.

Lemma calculateReturns_nth (prices : list PricePoint) (returns : list num)
    (i : nat) (p q : PricePoint) :
  calculateReturns M prices = Ok returns ->
  nth_error prices i = Some p ->
  nth_error prices (S i) = Some q ->
  nth_error returns i = Some (Math_log M (close q / close p)).
Proof.
  unfold calculateReturns. intros H Hp Hq. inv_bind.
  destruct prices as [| p0 rest]; [destruct i; discriminate |].
  eapply returnsLoop_nth; eauto.
Qed.

(** The loop throws exactly when a close that is used as a divisor, that
    is any close but the last, passes the test [close <= 0]. *)
Lemma returnsLoop_throws_iff (rest : list PricePoint) :
  forall prev,
    isOk (returnsLoop M prev rest) = false <->
    Exists (fun p => (close p <=? Fin 0) = true) (removelast (prev :: rest)).
Proof.
  induction rest as [| cur rest IH]; intros prev.
  - simpl. split; [discriminate | intros H; inversion H].
  - change (removelast (prev :: cur :: rest))
      with (prev :: removelast (cur :: rest)).
    rewrite Exists_cons, <- IH. simpl returnsLoop.
    destruct (close prev <=? Fin 0); simpl.
    + split; auto.
    + destruct (returnsLoop M cur rest); simpl;
        split; auto; intros [H | H]; congruence.
Qed.

Lemma calculateReturns_throws_iff (prices : list PricePoint) :
  isOk (calculateReturns M prices) = false <->
  (List.length prices < 2)%nat \/
  Exists (fun p => (close p <=? Fin 0) = true) (removelast prices).
Proof.
  unfold calculateReturns.
  destruct (Nat.ltb (List.length prices) 2) eqn:E; simpl.
  - apply Nat.ltb_lt in E. tauto.
  - apply Nat.ltb_ge in E. destruct prices as [| p0 rest]; [simpl in E; lia |].
    rewrite returnsLoop_throws_iff. split; [tauto | intros [H | H]; [lia | exact H]].
Qed.
End ReturnsFacts.

(** C2.  [calculateReturns] does not raise on every non-positive close:
    the close of the last price point is never tested.  On the two prices
    100 and 0 it returns the single return [Math.log(0 / 100)], which is
    -Infinity, and on 100 and -5 it returns [Math.log(-0.05)], which is
    NaN, whatever the library answers on finite arguments. *)
Theorem calculateReturns_last_close_unchecked (M : MathLib) :
  calculateReturns M [point 100; point 0] = Ok [NInf] /\
  calculateReturns M [point 100; point (-5)] = Ok [NaN].
Proof. split; reflexivity. Qed.

(* ================================================================== *)
(** ** calculateGARCHVolatility *)

(** The guard of [calculateGARCHVolatility] fires exactly on parameters
    outside the unit interval or with a sum of 1 or more. *)
Lemma garch_guard_iff (a b : num) :
  isNaN a = false -> isNaN b = false ->
  ((a <? Fin 0) || (b <? Fin 0) || (a + b >=? Fin 1) = true <->
   inUnit a = false \/ inUnit b = false \/ (a + b >=? Fin 1) = true).
Proof.
  intros Ha Hb. unfold inUnit, nge.
  destruct a as [x | | |], b as [y | | |]; simpl in *;
    try discriminate; try (split; auto; fail);
    repeat qcase; simpl; qprops;
    split; intros H;
    repeat match goal with
      | H : _ \/ _ |- _ => destruct H
      end;
    try discriminate; auto; try (exfalso; lra).
Qed.

Lemma garch_returns_normally (M : MathLib) (returns : list num) (a b : num) :
  returns <> [] ->
  (a <? Fin 0) || (b <? Fin 0) || (a + b >=? Fin 1) = false ->
  exists vols, calculateGARCHVolatility M returns a b = Ok vols.
Proof.
  intros Hne Hg. unfold calculateGARCHVolatility.
  destruct returns as [| r returns]; [congruence |].
  simpl List.length. simpl Nat.eqb at 1. rewrite Hg.
  cbv beta iota delta [throwIf bind].
  destruct (Nat.eqb (S (List.length returns)) 1); eexists; reflexivity.
Qed.



(* ================================================================== *)
(** ** Array indices *)

Lemma arrayIndex_Qeq (q : Q) (k : nat) :
  (q == inject_Z (Z.of_nat k))%Q -> arrayIndex (Fin q) = Some k.
Proof.
  intros E. unfold arrayIndex.
  assert (F : Qfloor q = Z.of_nat k) by (rewrite E; apply Qfloor_Z).
  rewrite F.
  replace (Qle_bool 0 q) with true.
  2:{ symmetry. apply Qle_bool_iff. rewrite E.
      change 0%Q with (inject_Z 0). rewrite <- Zle_Qle. lia. }
  replace (Qeq_bool q (inject_Z (Z.of_nat k))) with true
    by (symmetry; apply Qeq_bool_iff; exact E).
  simpl. rewrite Nat2Z.id. reflexivity.
Qed.

Lemma arrayIndex_ofNat (k : nat) : arrayIndex (ofNat k) = Some k.
Proof. apply arrayIndex_Qeq. reflexivity. Qed.

Lemma arrayIndex_ofNat_succ (k : nat) :
  arrayIndex (ofNat k + Fin 1) = Some (S k).
Proof.
  apply arrayIndex_Qeq. rewrite Nat2Z.inj_succ. unfold Z.succ.
  rewrite inject_Z_plus. reflexivity.
Qed.

Lemma arrayIndex_ofNat_pred (k : nat) :
  arrayIndex (ofNat (S k) - Fin 1) = Some k.
Proof.
  apply arrayIndex_Qeq. rewrite Nat2Z.inj_succ. unfold Z.succ.
  rewrite inject_Z_plus. simpl. ring.
Qed.

(** A valid index is a finite number. *)
Lemma arrayIndex_Some (i : num) (k : nat) :
  arrayIndex i = Some k -> exists q, i = Fin q.
Proof. destruct i; simpl; try discriminate; eauto. Qed.

(* ================================================================== *)
(** ** The sort *)

(** On numbers that are not NaN the comparator [(x, y) => x - y] is above
    0 exactly when [y < x]. *)
Lemma comparator_gt (x y : num) :
  isNaN x = false -> isNaN y = false -> (x - y >? Fin 0) = (y <? x).
Proof.
  destruct x as [a | | |], y as [b | | |]; simpl; try discriminate;
    intros _ _; try reflexivity.
  unfold ngt. simpl. apply eq_true_iff_eq. rewrite !Qlt_bool_iff.
  split; intros; lra.
Qed.

Lemma sortInsert_perm (x : num) (a : list num) :
  Permutation (sortInsert x a) (x :: a).
Proof.
  induction a as [| y a IH]; cbn [sortInsert]; [reflexivity |].
  destruct (x - y >? Fin 0); [| reflexivity].
  rewrite IH. apply perm_swap.
Qed.

Lemma sortAscending_perm (a : list num) : Permutation (sortAscending a) a.
Proof.
  induction a as [| x a IH]; simpl; [reflexivity |].
  rewrite sortInsert_perm. constructor. exact IH.
Qed.

Lemma sortAscending_length (a : list num) :
  List.length (sortAscending a) = List.length a.
Proof. apply Permutation_length, sortAscending_perm. Qed.

Lemma sortInsert_sorted (x : num) (a : list num) :
  isNaN x = false -> noNaN a ->
  StronglySorted nleP a -> StronglySorted nleP (sortInsert x a).
Proof.
  intros Hx. induction a as [| y a IH]; cbn [sortInsert]; intros Hn Hs.
  - repeat constructor.
  - inversion Hn as [| ? ? Hy Hn']; subst.
    inversion Hs as [| ? ? Hs' Hall]; subst.
    rewrite (comparator_gt x y Hx Hy).
    destruct (y <? x) eqn:E.
    + constructor; [apply IH; assumption |].
      eapply Permutation_Forall; [symmetry; apply sortInsert_perm |].
      constructor; [| exact Hall].
      unfold nleP. destruct x, y; simpl in *; try discriminate; auto.
      qprops. lra.
    + assert (Hxy : nleP x y) by (apply nle_nlt_total; assumption).
      constructor; [exact Hs |].
      constructor; [exact Hxy |].
      eapply Forall_impl; [| exact Hall].
      intros z Hz. unfold nleP in *. eapply nle_trans; eassumption.
Qed.

Lemma sortAscending_sorted (a : list num) :
  noNaN a -> StronglySorted nleP (sortAscending a).
Proof.
  induction a as [| x a IH]; simpl; intros Hn; [constructor |].
  inversion Hn; subst.
  apply sortInsert_sorted; auto.
  eapply Permutation_Forall; [symmetry; apply sortAscending_perm | assumption].
Qed.

(** In a sorted list a later element is not below an earlier one. *)
Lemma sorted_nth_le (a : list num) :
  StronglySorted nleP a -> noNaN a ->
  forall i j x y,
    (i <= j)%nat -> nth_error a i = Some x -> nth_error a j = Some y ->
    nleP x y.
Proof.
  induction 1 as [| z a Hs IH Hall]; intros Hn i j x y Hij Hi Hj.
  - destruct i; discriminate.
  - inversion Hn as [| ? ? Hz Hn']; subst.
    destruct i as [| i], j as [| j]; simpl in Hi, Hj.
    + injection Hi as <-. injection Hj as <-. apply nle_refl. assumption.
    + injection Hi as <-. apply nth_error_In in Hj.
      rewrite Forall_forall in Hall. auto.
    + exfalso. lia.
    + apply (IH Hn' i j x y); [lia | assumption | assumption].
Qed.

(* ================================================================== *)
(** ** The histogram loop *)

Lemma bumpAt_Some (h : list HistogramBin) :
  forall k h',
    bumpAt h k = Some h' ->
    (k < List.length h)%nat /\
    List.length h' = List.length h /\
    map bin h' = map bin h /\
    list_sum (counts h') = S (list_sum (counts h)) /\
    forall j, nth j (counts h') 0%nat
              = (nth j (counts h) 0 + if Nat.eqb j k then 1 else 0)%nat.
Proof.
  unfold counts.
  induction h as [| b h IH]; intros k h' H; [discriminate |].
  destruct k as [| k]; simpl in H.
  - injection H as <-. simpl. repeat split; try lia.
    intros [| j]; simpl; lia.
  - destruct (bumpAt h k) as [h1 |] eqn:E; [| discriminate].
    injection H as <-.
    destruct (IH k h1 E) as (Hk & Hl & Hb & Hs & Hn).
    simpl. repeat split; try lia; try congruence.
    intros [| j]; simpl; [lia | apply Hn].
Qed.

Lemma fillHistogram_Ok (minPrice binSize : num) (finalPrices : list num) :
  forall h h',
    fillHistogram minPrice binSize h finalPrices = Ok h' ->
    List.length h' = List.length h /\
    map bin h' = map bin h /\
    Forall (fun price =>
              exists k, arrayIndex (binIndexOf minPrice binSize price) = Some k
                        /\ (k < List.length h)%nat) finalPrices /\
    list_sum (counts h')
    = (list_sum (counts h) + List.length finalPrices)%nat /\
    forall j, nth j (counts h') 0%nat
              = (nth j (counts h) 0
                 + List.length (filter (lands minPrice binSize j) finalPrices))%nat.
Proof.
  induction finalPrices as [| price rest IH]; intros h h' H.
  - injection H as <-. simpl. repeat split; auto; intros; lia.
  - cbn [fillHistogram] in H. apply bind_Ok in H. destruct H as (h1 & Hb & H).
    unfold bumpCount in Hb.
    destruct (arrayIndex (binIndexOf minPrice binSize price)) as [k |] eqn:Ek;
      [| discriminate].
    destruct (bumpAt h k) as [h2 |] eqn:E2; [| discriminate].
    injection Hb as ->.
    destruct (bumpAt_Some h k h1 E2) as (Hk & Hl & Hbin & Hs & Hn).
    destruct (IH h1 h' H) as (Hl' & Hbin' & Hall & Hs' & Hn').
    repeat split.
    + congruence.
    + congruence.
    + constructor; [exists k; split; [exact Ek | exact Hk] |].
      eapply Forall_impl; [| exact Hall].
      intros p (k' & E' & L'). exists k'. split; [exact E' | lia].
    + simpl. lia.
    + intros j. rewrite Hn', Hn. cbn [filter]. unfold lands at 2. rewrite Ek.
      rewrite (Nat.eqb_sym k j).
      destruct (Nat.eqb j k); simpl; lia.
Qed.

(** A price that is NaN makes the loop throw: its bin index is NaN. *)
Lemma binIndexOf_NaN (minPrice binSize : num) :
  arrayIndex (binIndexOf minPrice binSize NaN) = None.
Proof.
  unfold binIndexOf. destruct minPrice, binSize; reflexivity.
Qed.

(* ================================================================== *)
(** ** Which prices the histogram loop accepts *)

Lemma ndiv_Fin (x y : Q) : ~ (y == 0)%Q -> Fin x / Fin y = Fin (x / y).
Proof.
  intros H. simpl. apply Qeq_bool_false in H. rewrite H. reflexivity.
Qed.

Lemma numBins_nonzero : ~ (inject_Z (Z.of_nat numBins) == 0)%Q.
Proof. discriminate. Qed.

Lemma binSize_Fin (lo hi : Q) :
  (Fin hi - Fin lo) / ofNat numBins = Fin (binWidth lo hi).
Proof. apply ndiv_Fin, numBins_nonzero. Qed.

Lemma binWidth_pos (lo hi : Q) : (lo < hi)%Q -> (0 < binWidth lo hi)%Q.
Proof.
  intros H. unfold binWidth. apply Qlt_shift_div_l; [reflexivity | lra].
Qed.

(** When the least price itself gets a bin, it is finite and the bin size
    is neither NaN nor 0. *)
Lemma min_accepted (m binSize : num) (k : nat) :
  arrayIndex (binIndexOf m binSize m) = Some k ->
  exists lo, m = Fin lo /\ isNaN binSize = false /\
             forall b, binSize = Fin b -> ~ (b == 0)%Q.
Proof.
  unfold binIndexOf. intros H.
  destruct m as [lo | | |]; try (destruct binSize; discriminate).
  exists lo. split; [reflexivity |].
  destruct binSize as [b | | |]; try (split; [reflexivity | discriminate]).
  - split; [reflexivity |]. intros b' E Hz. injection E as <-.
    simpl in H. unfold nsub, nadd, nneg in H.
    replace (Qeq_bool b 0) with true in H
      by (symmetry; apply Qeq_bool_iff; exact Hz).
    unfold infTimes in H.
    replace (Qeq_bool (lo + - lo) 0) with true in H
      by (symmetry; apply Qeq_bool_iff; ring).
    discriminate.
  - discriminate.
Qed.

(** When the greatest price gets a bin and the least one is finite, the
    greatest one is finite as well. *)
Lemma max_accepted (lo : Q) (m : num) (k : nat) :
  nleP (Fin lo) m ->
  arrayIndex (binIndexOf (Fin lo) ((m - Fin lo) / ofNat numBins) m) = Some k ->
  exists hi, m = Fin hi.
Proof.
  intros Hle H. destruct m as [hi | | |]; try discriminate; eauto.
Qed.

(** The bin of a price between the extremes: the index [k] is below 50,
    the price is at or above the lower edge of bin [k], below the lower
    edge of bin [k + 1] unless [k] is the last bin, and the greatest price
    is in the last bin. *)
Lemma binIndexOf_spec (lo hi q : Q) :
  (lo < hi)%Q -> (lo <= q)%Q -> (q <= hi)%Q ->
  exists k,
    arrayIndex (binIndexOf (Fin lo) (Fin (binWidth lo hi)) (Fin q)) = Some k /\
    (k < numBins)%nat /\
    (lo + inject_Z (Z.of_nat k) * binWidth lo hi <= q)%Q /\
    ((k < numBins - 1)%nat ->
     (q < lo + inject_Z (Z.of_nat (S k)) * binWidth lo hi)%Q) /\
    ((q == hi)%Q -> k = (numBins - 1)%nat).
Proof.
  intros Hlh Hlo Hhi.
  pose proof (binWidth_pos lo hi Hlh) as Hw.
  assert (Hw0 : ~ (binWidth lo hi == 0)%Q) by lra.
  unfold binIndexOf.
  change (Fin q - Fin lo) with (Fin (q + - lo)).
  rewrite (ndiv_Fin _ _ Hw0).
  remember ((q + - lo) / binWidth lo hi)%Q as x eqn:Ex.
  assert (Hx : (x * binWidth lo hi == q + - lo)%Q)
    by (subst x; field; exact Hw0).
  assert (H50 : (inject_Z 50 * binWidth lo hi == hi + - lo)%Q)
    by (unfold binWidth; simpl; field).
  assert (Hx0 : (0 <= x)%Q).
  { subst x. apply Qle_shift_div_l; [exact Hw | lra]. }
  assert (Hx50 : (x <= inject_Z 50)%Q).
  { subst x. apply Qle_shift_div_r; [exact Hw | lra]. }
  pose proof (Qfloor_le x) as Hf1.
  pose proof (Qlt_floor x) as Hf2.
  assert (Hf0 : (0 <= Qfloor x)%Z).
  { change 0%Z with (Qfloor 0). apply Qfloor_resp_le. exact Hx0. }
  assert (Hf50 : (Qfloor x <= 50)%Z).
  { rewrite <- (Qfloor_Z 50). apply Qfloor_resp_le. exact Hx50. }
  cbn [Math_floor]. unfold ofZ.
  set (f := Qfloor x) in *. clearbody f.
  change (ofNat numBins - Fin 1) with (Fin (inject_Z 50 + - (1))).
  unfold Math_min. cbn [isNaN orb nlt].
  assert (Hmul1 : (inject_Z f * binWidth lo hi <= x * binWidth lo hi)%Q)
    by (apply Qmult_le_compat_r; lra).
  assert (Hmul2 :
           (x * binWidth lo hi < inject_Z (f + 1) * binWidth lo hi)%Q)
    by (apply Qmult_lt_compat_r; lra).
  rewrite inject_Z_plus in Hmul2.
  destruct (Qlt_bool (inject_Z 50 + - (1)) (inject_Z f)) eqn:E; qprops.
  - (* floor above 49: the last bin *)
    assert (Hf : f = 50%Z).
    { assert (49 < f)%Z; [| lia].
      rewrite Zlt_Qlt. change (inject_Z 49) with 49%Q.
      change (inject_Z 50) with 50%Q in E. lra. }
    subst f. exists 49%nat.
    split; [apply arrayIndex_Qeq; reflexivity |].
    split; [unfold numBins; lia |].
    split.
    + change (inject_Z (Z.of_nat 49)) with (inject_Z 49).
      assert ((inject_Z 49 * binWidth lo hi
               <= inject_Z 50 * binWidth lo hi)%Q)
        by (apply Qmult_le_compat_r; [discriminate | lra]).
      lra.
    + split; [unfold numBins; simpl; lia | reflexivity].
  - (* floor at most 49 *)
    assert (Hf : (f <= 49)%Z).
    { rewrite Zle_Qle. change (inject_Z 49) with 49%Q.
      change (inject_Z 50) with 50%Q in E. lra. }
    exists (Z.to_nat f).
    split; [apply arrayIndex_Qeq; rewrite Z2Nat.id by lia; reflexivity |].
    split; [unfold numBins; lia |].
    rewrite Nat2Z.inj_succ, Z2Nat.id by lia. unfold Z.succ.
    rewrite inject_Z_plus.
    split; [lra |].
    split; [intros _; lra |].
    intros Eq. exfalso.
    assert ((x * binWidth lo hi == inject_Z 50 * binWidth lo hi)%Q)
      by (rewrite Hx, H50, Eq; reflexivity).
    assert ((inject_Z f + inject_Z 1 <= inject_Z 50)%Q).
    { rewrite <- inject_Z_plus, <- Zle_Qle. lia. }
    assert (((inject_Z f + inject_Z 1) * binWidth lo hi
             <= inject_Z 50 * binWidth lo hi)%Q)
      by (apply Qmult_le_compat_r; lra).
    lra.
Qed.

Lemma noNaN_perm (a b : list num) : Permutation a b -> noNaN a -> noNaN b.
Proof. intros P H. eapply Permutation_Forall; eassumption. Qed.

Lemma nle_Fin_bounds (lo hi : Q) (p : num) :
  nleP (Fin lo) p -> nleP p (Fin hi) ->
  exists q, p = Fin q /\ (lo <= q)%Q /\ (q <= hi)%Q.
Proof.
  unfold nleP. destruct p as [q | | |]; simpl; try discriminate.
  intros; qprops; eauto.
Qed.

Lemma nth_error_defined {A : Type} (a : list A) (k : nat) :
  (k < List.length a)%nat -> exists x, nth_error a k = Some x.
Proof.
  intros H. destruct (nth_error a k) eqn:E; [eauto |].
  apply nth_error_None in E. lia.
Qed.

(** The histogram loop of a successful call saw no NaN. *)
Lemma accepted_noNaN (minPrice binSize : num) (finals : list num)
    (h0 h : list HistogramBin) :
  fillHistogram minPrice binSize h0 finals = Ok h -> noNaN finals.
Proof.
  intros H. destruct (fillHistogram_Ok _ _ _ _ _ H) as (_ & _ & Hacc & _).
  eapply Forall_impl; [| exact Hacc].
  intros p (k & Ek & _). destruct p; try reflexivity.
  rewrite binIndexOf_NaN in Ek. discriminate.
Qed.

(** The ends of the sorted array are the least and the greatest terminal
    price, when no terminal price is NaN. *)
Lemma sorted_ends (finals : list num) :
  finals <> [] -> noNaN finals ->
  In (minOf (sortAscending finals)) finals /\
  In (maxOf (sortAscending finals)) finals /\
  forall p, In p finals ->
            nleP (minOf (sortAscending finals)) p /\
            nleP p (maxOf (sortAscending finals)).
Proof.
  intros Hne Hnan.
  pose proof (sortAscending_perm finals) as Hperm.
  pose proof (sortAscending_sorted finals Hnan) as Hsorted.
  assert (Hnan' : noNaN (sortAscending finals))
    by (eapply noNaN_perm; [symmetry; exact Hperm | exact Hnan]).
  remember (sortAscending finals) as sorted eqn:Es.
  destruct sorted as [| s0 srest].
  { apply Permutation_nil in Hperm. congruence. }
  assert (Emin : minOf (s0 :: srest) = s0) by reflexivity.
  assert (Hlast : exists sl,
             nth_error (s0 :: srest) (List.length srest) = Some sl)
    by (apply nth_error_defined; simpl; lia).
  destruct Hlast as (sl & Hsl).
  assert (Emax : maxOf (s0 :: srest) = sl).
  { unfold maxOf, arrayGet. cbn [List.length].
    rewrite arrayIndex_ofNat_pred, Hsl. reflexivity. }
  rewrite Emin, Emax.
  split; [eapply Permutation_in; [exact Hperm | left; reflexivity] |].
  split; [eapply Permutation_in;
          [exact Hperm | eapply nth_error_In; exact Hsl] |].
  intros p Hp.
  assert (Hp' : In p (s0 :: srest))
    by (eapply Permutation_in; [symmetry; exact Hperm | exact Hp]).
  apply In_nth_error in Hp'. destruct Hp' as (i & Hi).
  assert (Hlt : (i < List.length (s0 :: srest))%nat)
    by (apply nth_error_Some; congruence).
  simpl in Hlt.
  split.
  - apply (sorted_nth_le _ Hsorted Hnan' 0 i); [lia | reflexivity | exact Hi].
  - apply (sorted_nth_le _ Hsorted Hnan' i (List.length srest));
      [lia | exact Hi | exact Hsl].
Qed.

(** When the histogram loop accepts every terminal price of a non-empty
    list, the prices are finite and not all equal, and the least and the
    greatest of them are the ends of the sorted array. *)
Lemma accepted_range (finals : list num) (h0 h : list HistogramBin) :
  finals <> [] ->
  fillHistogram (minOf (sortAscending finals))
    ((maxOf (sortAscending finals) - minOf (sortAscending finals))
     / ofNat numBins) h0 finals = Ok h ->
  exists lo hi,
    minOf (sortAscending finals) = Fin lo /\
    maxOf (sortAscending finals) = Fin hi /\
    (lo < hi)%Q /\ In (Fin lo) finals /\ In (Fin hi) finals /\
    Forall (fun p => exists q, p = Fin q /\ (lo <= q)%Q /\ (q <= hi)%Q)
      finals /\
    StronglySorted nleP (sortAscending finals).
Proof.
  intros Hne H.
  pose proof (accepted_noNaN _ _ _ _ _ H) as Hnan.
  destruct (fillHistogram_Ok _ _ _ _ _ H) as (_ & _ & Hacc & _ & _).
  rewrite Forall_forall in Hacc.
  destruct (sorted_ends finals Hne Hnan) as (Hin0 & Hinl & Hbounds).
  pose proof (sortAscending_sorted finals Hnan) as Hsorted.
  set (s0 := minOf (sortAscending finals)) in *.
  set (sl := maxOf (sortAscending finals)) in *.
  clearbody s0 sl.
  (* the least price is finite, the bin size is not 0 *)
  destruct (Hacc s0 Hin0) as (k0 & Ek0 & _).
  destruct (min_accepted _ _ _ Ek0) as (lo & -> & Hbs & Hbz).
  (* the greatest price is finite *)
  destruct (Hacc sl Hinl) as (kl & Ekl & _).
  destruct (max_accepted lo sl kl (proj1 (Hbounds sl Hinl)) Ekl) as (hi & ->).
  rewrite binSize_Fin in Hbz.
  assert (Hle : (lo <= hi)%Q).
  { destruct (Hbounds (Fin hi) Hinl) as (Hb & _).
    unfold nleP in Hb. simpl in Hb. qprops. exact Hb. }
  assert (Hlt : (lo < hi)%Q).
  { destruct (Qle_lt_or_eq _ _ Hle) as [L | E]; [exact L | exfalso].
    apply (Hbz _ eq_refl). unfold binWidth. rewrite E.
    unfold Qdiv. ring. }
  exists lo, hi. repeat split; auto.
  apply Forall_forall. intros p Hp.
  destruct (Hbounds p Hp) as (B1 & B2).
  apply nle_Fin_bounds; assumption.
Qed.

(* ================================================================== *)
(** ** The simulated paths *)

Section PathFacts.
Variable M : MathLib.
Variables omega a b dr : num.

Lemma stepLoop_S (rnd : nat -> num) (s : nat) (p v : num) (k : nat) :
  stepLoop M rnd omega a b dr (S s) p v k =
  (stepPrice M dr rnd p v k
     :: fst (stepLoop M rnd omega a b dr s
               (stepPrice M dr rnd p v k) (stepVol M omega a b dr rnd v k) (S (S k))),
   snd (stepLoop M rnd omega a b dr s
          (stepPrice M dr rnd p v k) (stepVol M omega a b dr rnd v k) (S (S k)))).
Proof.
  unfold stepPrice, stepVol, stepReturn.
  cbn [stepLoop randomNormal fst].
  match goal with
  | |- context [stepLoop M rnd omega a b dr s ?p' ?v' ?k'] =>
      destruct (stepLoop M rnd omega a b dr s p' v' k')
  end.
  reflexivity.
Qed.

Lemma pathLoop_S (rnd : nat -> num) (s : nat) (p0 v0 : num) (n k : nat) :
  pathLoop M rnd omega a b dr s p0 v0 (S n) k =
  ((p0 :: fst (stepLoop M rnd omega a b dr s p0 v0 k))
     :: fst (pathLoop M rnd omega a b dr s p0 v0 n
               (snd (stepLoop M rnd omega a b dr s p0 v0 k))),
   snd (pathLoop M rnd omega a b dr s p0 v0 n
          (snd (stepLoop M rnd omega a b dr s p0 v0 k)))).
Proof.
  cbn [pathLoop].
  destruct (stepLoop M rnd omega a b dr s p0 v0 k) as [pushed k1].
  cbn [fst snd].
  destruct (pathLoop M rnd omega a b dr s p0 v0 n k1); reflexivity.
Qed.

(** Each iteration makes two draws. *)
Lemma stepLoop_draws (rnd : nat -> num) (s : nat) :
  forall p v k,
    snd (stepLoop M rnd omega a b dr s p v k) = (k + 2 * s)%nat.
Proof.
  induction s as [| s IH]; intros p v k.
  - simpl. lia.
  - rewrite stepLoop_S. cbn [snd]. rewrite IH. lia.
Qed.

Lemma stepLoop_length (rnd : nat -> num) (s : nat) :
  forall p v k,
    List.length (fst (stepLoop M rnd omega a b dr s p v k)) = s.
Proof.
  induction s as [| s IH]; intros p v k.
  - reflexivity.
  - rewrite stepLoop_S. cbn [fst List.length]. rewrite IH. reflexivity.
Qed.

(** No price that the loop pushes is below the floor. *)
Lemma stepPrice_floor (rnd : nat -> num) (p v : num) (k : nat) :
  (stepPrice M dr rnd p v k <? MIN_PRICE) = false.
Proof.
  unfold stepPrice.
  destruct (p * Math_exp M (stepReturn M dr rnd v k) <? MIN_PRICE) eqn:E;
    [reflexivity | exact E].
Qed.

Lemma stepLoop_floor (rnd : nat -> num) (s : nat) :
  forall p v k,
    Forall (fun x => (x <? MIN_PRICE) = false)
      (fst (stepLoop M rnd omega a b dr s p v k)).
Proof.
  induction s as [| s IH]; intros p v k.
  - constructor.
  - rewrite stepLoop_S. cbn [fst]. constructor;
      [apply stepPrice_floor | apply IH].
Qed.

(** NaN is absorbing: once the price is NaN it stays NaN. *)
Lemma stepPrice_NaN (rnd : nat -> num) (v : num) (k : nat) :
  stepPrice M dr rnd NaN v k = NaN.
Proof. reflexivity. Qed.

(** So a path whose last price is a number holds numbers only. *)
Lemma stepLoop_noNaN (rnd : nat -> num) (s : nat) :
  forall p v k,
    isNaN (last (p :: fst (stepLoop M rnd omega a b dr s p v k)) NaN)
    = false ->
    noNaN (p :: fst (stepLoop M rnd omega a b dr s p v k)).
Proof.
  induction s as [| s IH]; intros p v k H.
  - simpl in *. repeat constructor. exact H.
  - rewrite stepLoop_S in *. cbn [fst] in *.
    change (last (p :: ?x :: ?l) NaN) with (last (x :: l) NaN) in H.
    specialize (IH _ _ _ H).
    constructor; [| exact IH].
    destruct p; try reflexivity.
    rewrite stepPrice_NaN in IH. inversion IH. discriminate.
Qed.

Lemma pathLoop_length (rnd : nat -> num) (s : nat) (p0 v0 : num) (n : nat) :
  forall k,
    List.length (fst (pathLoop M rnd omega a b dr s p0 v0 n k)) = n.
Proof.
  induction n as [| n IH]; intros k.
  - reflexivity.
  - rewrite pathLoop_S. cbn [fst List.length]. rewrite IH. reflexivity.
Qed.

Lemma pathLoop_draws (rnd : nat -> num) (s : nat) (p0 v0 : num) (n : nat) :
  forall k,
    snd (pathLoop M rnd omega a b dr s p0 v0 n k) = (k + 2 * s * n)%nat.
Proof.
  induction n as [| n IH]; intros k.
  - simpl. lia.
  - rewrite pathLoop_S. cbn [snd]. rewrite IH, stepLoop_draws. lia.
Qed.

(** Every path is the seed price followed by the [s] prices of one run
    of the inner loop. *)
Lemma pathLoop_paths (rnd : nat -> num) (s : nat) (p0 v0 : num) (n : nat) :
  forall k,
    Forall (fun path =>
              exists k', path
                         = p0 :: fst (stepLoop M rnd omega a b dr s p0 v0 k'))
      (fst (pathLoop M rnd omega a b dr s p0 v0 n k)).
Proof.
  induction n as [| n IH]; intros k.
  - constructor.
  - rewrite pathLoop_S. cbn [fst]. constructor; [eauto | apply IH].
Qed.

(** The loops read the random stream only at the draws they make. *)
Lemma stepLoop_ext (rnd1 rnd2 : nat -> num) (bound : nat) :
  (forall i, (i < bound)%nat -> rnd1 i = rnd2 i) ->
  forall s p v k,
    (k + 2 * s <= bound)%nat ->
    stepLoop M rnd1 omega a b dr s p v k
    = stepLoop M rnd2 omega a b dr s p v k.
Proof.
  intros Hr. induction s as [| s IH]; intros p v k Hk; [reflexivity |].
  rewrite !stepLoop_S.
  assert (E : stepReturn M dr rnd1 v k = stepReturn M dr rnd2 v k).
  { unfold stepReturn, randomNormal. cbn [fst].
    rewrite (Hr k), (Hr (S k)) by lia. reflexivity. }
  assert (Ep : stepPrice M dr rnd1 p v k = stepPrice M dr rnd2 p v k)
    by (unfold stepPrice; rewrite E; reflexivity).
  assert (Ev : stepVol M omega a b dr rnd1 v k = stepVol M omega a b dr rnd2 v k)
    by (unfold stepVol; rewrite E; reflexivity).
  rewrite Ep, Ev, IH by lia. reflexivity.
Qed.

Lemma pathLoop_ext (rnd1 rnd2 : nat -> num) (bound : nat) :
  (forall i, (i < bound)%nat -> rnd1 i = rnd2 i) ->
  forall s p0 v0 n k,
    (k + 2 * s * n <= bound)%nat ->
    pathLoop M rnd1 omega a b dr s p0 v0 n k
    = pathLoop M rnd2 omega a b dr s p0 v0 n k.
Proof.
  intros Hr s p0 v0. induction n as [| n IH]; intros k Hk; [reflexivity |].
  rewrite !pathLoop_S.
  rewrite (stepLoop_ext rnd1 rnd2 bound Hr) by lia.
  rewrite IH; [reflexivity |].
  rewrite stepLoop_draws. lia.
Qed.
End PathFacts.

(* ================================================================== *)
(** ** What a successful call went through *)

Lemma validateParams_Ok (params : AnalyticsParams) (u : unit) :
  validateParams params = Ok u ->
  (100 <= numPaths params <= 10000)%Z /\ (10 <= numSteps params <= 1000)%Z.
Proof.
  unfold validateParams. intros H. inv_bind.
  repeat match goal with
    | H : _ || _ = false |- _ => apply orb_false_iff in H; destruct H
    end.
  lia.
Qed.

Lemma runMonteCarloSimulation_Ok (M : MathLib) (rnd : nat -> num)
    (p0 : num) (params : AnalyticsParams) (v0 dr : num) (r : AnalyticsResult) :
  runMonteCarloSimulation M rnd p0 params v0 dr = Ok r ->
  (100 <= numPaths params <= 10000)%Z /\
  (10 <= numSteps params <= 1000)%Z /\
  (p0 <=? Fin 0) = false /\
  (v0 <=? Fin 0) = false /\
  calculateStatistics (simulatePaths M rnd p0 params v0 dr) p0 = Ok r.
Proof.
  unfold runMonteCarloSimulation. intros H.
  apply bind_Ok in H. destruct H as (u & Hv & H).
  apply validateParams_Ok in Hv.
  inv_bind. tauto.
Qed.

Lemma calculateStatistics_Ok (ps : list (list num)) (p0 : num)
    (r : AnalyticsResult) :
  calculateStatistics ps p0 = Ok r ->
  paths r = ps /\
  fillHistogram (minOf (sortedPrices ps))
    ((maxOf (sortedPrices ps) - minOf (sortedPrices ps)) / ofNat numBins)
    (emptyHistogram (minOf (sortedPrices ps))
       ((maxOf (sortedPrices ps) - minOf (sortedPrices ps)) / ofNat numBins))
    (finalPrices ps)
  = Ok (histogram r) /\
  percentiles r
  = map (fun p => (percentileKey p,
                   arrayGet (sortedPrices ps)
                     (percentileIndex (List.length ps) p)))
      percentileLevels /\
  var95 r
  = p0 - toNumber (arrayGet (sortedPrices ps)
                     (Math_floor (Fin (5 # 100) * ofNat (List.length ps)))) /\
  var99 r
  = p0 - toNumber (arrayGet (sortedPrices ps)
                     (Math_floor (Fin (1 # 100) * ofNat (List.length ps)))) /\
  expectedShortfall95 r
  = p0 - sumOf (fun price => price)
           (slice0 (sortedPrices ps)
              (Math_floor (Fin (5 # 100) * ofNat (List.length ps)) + Fin 1))
         / (Math_floor (Fin (5 # 100) * ofNat (List.length ps)) + Fin 1) /\
  expectedShortfall99 r
  = p0 - sumOf (fun price => price)
           (slice0 (sortedPrices ps)
              (Math_floor (Fin (1 # 100) * ofNat (List.length ps)) + Fin 1))
         / (Math_floor (Fin (1 # 100) * ofNat (List.length ps)) + Fin 1) /\
  currentVolatility r = Fin 0 /\ trend r = Fin 0 /\ drift r = Fin 0.
Proof.
  unfold calculateStatistics. intros H.
  apply bind_Ok in H. destruct H as (h & Hh & H).
  injection H as <-. cbn [paths histogram percentiles var95 var99
    expectedShortfall95 expectedShortfall99 currentVolatility trend drift].
  repeat split; try reflexivity. exact Hh.
Qed.

Lemma simulatePaths_length (M : MathLib) (rnd : nat -> num) (p0 : num)
    (params : AnalyticsParams) (v0 dr : num) :
  List.length (simulatePaths M rnd p0 params v0 dr)
  = Z.to_nat (numPaths params).
Proof. unfold simulatePaths. apply pathLoop_length. Qed.

(** Every simulated path has [numSteps + 1] prices, starts at the seed
    price and holds no price below the floor after it. *)
Lemma simulatePaths_shape (M : MathLib) (rnd : nat -> num) (p0 : num)
    (params : AnalyticsParams) (v0 dr : num) :
  Forall (fun path =>
            List.length path = S (Z.to_nat (numSteps params)) /\
            nth_error path 0 = Some p0 /\
            Forall (fun x => (x <? MIN_PRICE) = false) (tl path) /\
            (isNaN (finalPrice path) = false -> noNaN path))
    (simulatePaths M rnd p0 params v0 dr).
Proof.
  unfold simulatePaths.
  eapply Forall_impl; [| apply pathLoop_paths].
  intros path (k' & ->). cbn [List.length nth_error tl].
  rewrite stepLoop_length.
  repeat split; [apply stepLoop_floor |].
  unfold finalPrice. apply stepLoop_noNaN.
Qed.

(** The shape of the paths of a result. *)
Lemma result_paths_shape (M : MathLib) (rnd : nat -> num) (p0 : num)
    (params : AnalyticsParams) (v0 dr : num) (r : AnalyticsResult) :
  runMonteCarloSimulation M rnd p0 params v0 dr = Ok r ->
  List.length (paths r) = Z.to_nat (numPaths params) /\
  Forall (fun path =>
            List.length path = S (Z.to_nat (numSteps params)) /\
            nth_error path 0 = Some p0 /\
            Forall (fun x => (MIN_PRICE <=? x) = true) (tl path))
    (paths r) /\
  (Fin 0 <? p0) = true.
Proof.
  intros H.
  destruct (runMonteCarloSimulation_Ok _ _ _ _ _ _ _ H)
    as (Hn & Hs & Hp & Hv & Hstat).
  destruct (calculateStatistics_Ok _ _ _ Hstat) as (Hpaths & Hfill & _).
  apply accepted_noNaN in Hfill. unfold finalPrices in Hfill.
  rewrite Hpaths.
  pose proof (simulatePaths_shape M rnd p0 params v0 dr) as Hshape.
  pose proof (simulatePaths_length M rnd p0 params v0 dr) as Hlen.
  assert (Hall : Forall (fun path =>
            List.length path = S (Z.to_nat (numSteps params)) /\
            nth_error path 0 = Some p0 /\
            Forall (fun x => (MIN_PRICE <=? x) = true) (tl path) /\
            isNaN p0 = false)
    (simulatePaths M rnd p0 params v0 dr)).
  { rewrite Forall_forall in *. intros path Hin.
    destruct (Hshape path Hin) as (L & Hd & Hfl & Hnn).
    assert (Hnan : noNaN path).
    { apply Hnn. unfold noNaN in Hfill. rewrite Forall_forall in Hfill.
      apply Hfill. apply in_map. exact Hin. }
    repeat split; try assumption.
    - destruct path as [| x path]; [discriminate |].
      inversion Hnan as [| ? ? _ Hnan']; subst. cbn [tl] in *.
      rewrite Forall_forall in *. intros y Hy.
      apply nle_nlt_total; [apply Hnan', Hy | reflexivity | apply Hfl, Hy].
    - destruct path as [| x path]; [discriminate |].
      injection Hd as ->. inversion Hnan. assumption. }
  split; [exact Hlen |]. split.
  - eapply Forall_impl; [| exact Hall].
    intros path (L & Hd & Hfl & _). auto.
  - destruct (simulatePaths M rnd p0 params v0 dr) as [| path0 rest].
    + simpl in Hlen. lia.
    + inversion Hall as [| ? ? (_ & _ & _ & Hnan) _]; subst.
      destruct p0; simpl in *; try discriminate; try reflexivity.
      unfold Qlt_bool. rewrite Hp. reflexivity.
Qed.

(* ================================================================== *)
(** ** Two concrete runs *)

(** The scenario of the specification: 100 paths of 10 steps from the
    price 100 with volatility 0.2 and no drift. *)
Notation "'toyRun'" :=
  (runMonteCarloSimulation toyMath toyRandom (Fin 100) testParams
     (Fin (2 # 10)) (Fin 0)) (only parsing).

(** The same scenario from the price 0.005, which is above 0 and below the
    price floor. *)
Notation "'pennyRun'" :=
  (runMonteCarloSimulation toyMath toyRandom (Fin (5 # 1000)) testParams
     (Fin (2 # 10)) (Fin 0)) (only parsing).

Lemma isOk_exists {A : Type} (x : result A) :
  isOk x = true -> exists a, x = Ok a.
Proof. destruct x; [eauto | discriminate]. Qed.

Lemma toyRun_Ok : exists r, toyRun = Ok r.
Proof. apply isOk_exists. vm_compute. reflexivity. Qed.

Lemma pennyRun_Ok : exists r, pennyRun = Ok r.
Proof. apply isOk_exists. vm_compute. reflexivity. Qed.

(* ================================================================== *)
(** ** The shape of the simulated paths *)




(* ================================================================== *)
(** ** The fields left to the caller *)

(** C3.  In every result of [runMonteCarloSimulation] the fields
    [currentVolatility], [trend] and [drift] are 0, whatever volatility and
    drift the call was given. *)
Theorem runMonteCarloSimulation_caller_fields (M : MathLib)
    (rnd : nat -> num) (initialPrice : num) (params : AnalyticsParams)
    (initialVolatility dr : num) (r : AnalyticsResult) :
  runMonteCarloSimulation M rnd initialPrice params initialVolatility dr
  = Ok r ->
  currentVolatility r = Fin 0 /\ trend r = Fin 0 /\ drift r = Fin 0.
Proof.
  intros H.
  destruct (runMonteCarloSimulation_Ok _ _ _ _ _ _ _ H) as (_ & _ & _ & _ & Hs).
  destruct (calculateStatistics_Ok _ _ _ Hs)
    as (_ & _ & _ & _ & _ & _ & _ & Hv & Ht & Hd).
  auto.
Qed.

Lemma runMonteCarloSimulation_caller_fields_witness :
  exists r,
    toyRun = Ok r /\
    currentVolatility r = Fin 0 /\ trend r = Fin 0 /\ drift r = Fin 0.
Proof.
  destruct toyRun_Ok as (r & Hr). exists r. split; [exact Hr |].
  exact (runMonteCarloSimulation_caller_fields toyMath toyRandom (Fin 100)
           testParams (Fin (2 # 10)) (Fin 0) r Hr).
Defined.

(* ================================================================== *)
(** ** Determinism *)

(** The simulator makes [2 * numSteps * numPaths] draws and its paths
    depend on the random stream through these draws only. *)
Lemma simulatePaths_ext (M : MathLib) (rnd1 rnd2 : nat -> num) (p0 : num)
    (params : AnalyticsParams) (v0 dr : num) :
  (forall i,
      (i < 2 * Z.to_nat (numSteps params) * Z.to_nat (numPaths params))%nat ->
      rnd1 i = rnd2 i) ->
  simulatePaths M rnd1 p0 params v0 dr = simulatePaths M rnd2 p0 params v0 dr.
Proof.
  intros H. unfold simulatePaths. f_equal.
  eapply pathLoop_ext; [exact H | lia].
Qed.

Lemma runMonteCarloSimulation_ext (M : MathLib) (rnd1 rnd2 : nat -> num)
    (p0 : num) (params : AnalyticsParams) (v0 dr : num) :
  (forall i,
      (i < 2 * Z.to_nat (numSteps params) * Z.to_nat (numPaths params))%nat ->
      rnd1 i = rnd2 i) ->
  runMonteCarloSimulation M rnd1 p0 params v0 dr
  = runMonteCarloSimulation M rnd2 p0 params v0 dr.
Proof.
  intros H. unfold runMonteCarloSimulation.
  rewrite (simulatePaths_ext M rnd1 rnd2 p0 params v0 dr H). reflexivity.
Qed.

(** C7.  With the answers of [Math.random()] given as a stream, two calls
    of [runMonteCarloSimulation] on the same arguments and on streams that
    give the same answer at every draw have the same outcome: the same
    result, field by field and price by price, or the same exception. *)
Theorem runMonteCarloSimulation_deterministic (M : MathLib)
    (rnd1 rnd2 : nat -> num) (initialPrice : num) (params : AnalyticsParams)
    (initialVolatility dr : num) :
  (forall i, rnd1 i = rnd2 i) ->
  runMonteCarloSimulation M rnd1 initialPrice params initialVolatility dr
  = runMonteCarloSimulation M rnd2 initialPrice params initialVolatility dr.
Proof. intros H. apply runMonteCarloSimulation_ext. intros i _. apply H. Qed.

Lemma runMonteCarloSimulation_deterministic_witness :
  (forall i, toyRandom i = toyRandom (i + 0)) /\
  toyRun
  = runMonteCarloSimulation toyMath (fun i => toyRandom (i + 0)) (Fin 100)
      testParams (Fin (2 # 10)) (Fin 0).
Proof.
  assert (H : forall i, toyRandom i = toyRandom (i + 0))
    by (intros i; rewrite Nat.add_0_r; reflexivity).
  split; [exact H |].
  exact (runMonteCarloSimulation_deterministic toyMath toyRandom
           (fun i => toyRandom (i + 0)) (Fin 100) testParams
           (Fin (2 # 10)) (Fin 0) H).
Defined.

(* ================================================================== *)
(** ** The histogram *)

Lemma edge_mono (lo hi : Q) (j k : nat) :
  (lo < hi)%Q -> (j <= k)%nat ->
  (lo + inject_Z (Z.of_nat j) * binWidth lo hi
   <= lo + inject_Z (Z.of_nat k) * binWidth lo hi)%Q.
Proof.
  intros Hlh Hjk. pose proof (binWidth_pos lo hi Hlh) as Hw.
  assert ((inject_Z (Z.of_nat j) * binWidth lo hi
           <= inject_Z (Z.of_nat k) * binWidth lo hi)%Q).
  { apply Qmult_le_compat_r; [| lra]. rewrite <- Zle_Qle. lia. }
  lra.
Qed.

(** The loop counts a price in bin [k] exactly when the price lies in
    bin [k]. *)
Lemma lands_inBin (lo hi q : Q) (k : nat) :
  (lo < hi)%Q -> (lo <= q)%Q -> (q <= hi)%Q ->
  lands (Fin lo) (Fin (binWidth lo hi)) k (Fin q) = inBin lo hi k (Fin q).
Proof.
  intros Hlh Hlo Hhi.
  destruct (binIndexOf_spec lo hi q Hlh Hlo Hhi)
    as (k0 & Ek & Hk0 & Hlow & Hup & _).
  unfold lands. rewrite Ek. cbn [inBin].
  destruct (Nat.eqb k0 k) eqn:E.
  - apply Nat.eqb_eq in E. subst k0. symmetry.
    replace (Nat.ltb k numBins) with true
      by (symmetry; apply Nat.ltb_lt; exact Hk0).
    replace (Qle_bool (lo + inject_Z (Z.of_nat k) * binWidth lo hi) q)
      with true by (symmetry; apply Qle_bool_iff; exact Hlow).
    cbn [andb].
    destruct (Nat.ltb k (numBins - 1)) eqn:L.
    + apply Nat.ltb_lt in L. apply Qlt_bool_iff. auto.
    + apply Qle_bool_iff. exact Hhi.
  - apply Nat.eqb_neq in E. symmetry.
    destruct (Nat.ltb k numBins) eqn:Lk; [| reflexivity].
    apply Nat.ltb_lt in Lk. cbn [andb].
    destruct (Nat.lt_ge_cases k k0) as [Hlt | Hge].
    + (* an earlier bin: the price is at or above its right edge *)
      replace (Nat.ltb k (numBins - 1)) with true
        by (symmetry; apply Nat.ltb_lt; lia).
      pose proof (edge_mono lo hi (S k) k0 Hlh Hlt).
      replace (Qlt_bool q (lo + inject_Z (Z.of_nat (S k)) * binWidth lo hi))
        with false by (symmetry; apply Qlt_bool_false; lra).
      apply andb_false_r.
    + (* a later bin: the price is below its left edge *)
      assert (Hk : (k0 < k)%nat) by lia.
      assert (Hlast : (k0 < numBins - 1)%nat) by lia.
      pose proof (Hup Hlast).
      pose proof (edge_mono lo hi (S k0) k Hlh Hk).
      replace (Qle_bool (lo + inject_Z (Z.of_nat k) * binWidth lo hi) q)
        with false by (symmetry; apply Qle_bool_false; lra).
      reflexivity.
Qed.

Lemma seq_nth_error (start len k : nat) :
  (k < len)%nat -> nth_error (seq start len) k = Some (start + k)%nat.
Proof.
  intros H. rewrite (nth_error_nth' _ 0%nat) by (rewrite length_seq; exact H).
  rewrite seq_nth by exact H. reflexivity.
Qed.

Lemma emptyHistogram_length (m bs : num) :
  List.length (emptyHistogram m bs) = numBins.
Proof. unfold emptyHistogram. rewrite length_map, length_seq. reflexivity. Qed.

Lemma emptyHistogram_nth (m bs : num) (k : nat) :
  (k < numBins)%nat ->
  nth_error (emptyHistogram m bs) k
  = Some {| bin := m + ofNat k * bs; count := 0 |}.
Proof.
  intros H. unfold emptyHistogram.
  erewrite map_nth_error; [reflexivity |].
  apply (seq_nth_error 0 numBins k H).
Qed.

Lemma emptyHistogram_sum (m bs : num) :
  list_sum (counts (emptyHistogram m bs)) = 0%nat.
Proof. reflexivity. Qed.

(** What a result's histogram is. *)
Lemma result_histogram (M : MathLib) (rnd : nat -> num) (p0 : num)
    (params : AnalyticsParams) (v0 dr : num) (r : AnalyticsResult) :
  runMonteCarloSimulation M rnd p0 params v0 dr = Ok r ->
  exists lo hi : Q,
    (lo < hi)%Q /\
    In (Fin lo) (finalPrices (paths r)) /\
    In (Fin hi) (finalPrices (paths r)) /\
    Forall (fun p => exists q, p = Fin q /\ (lo <= q)%Q /\ (q <= hi)%Q)
      (finalPrices (paths r)) /\
    List.length (histogram r) = 50%nat /\
    (forall k b,
        nth_error (histogram r) k = Some b ->
        bin b = Fin (lo + inject_Z (Z.of_nat k) * binWidth lo hi) /\
        count b
        = List.length (filter (inBin lo hi k) (finalPrices (paths r)))) /\
    inBin lo hi 49 (Fin hi) = true /\
    list_sum (counts (histogram r)) = Z.to_nat (numPaths params).
Proof.
  intros H.
  destruct (runMonteCarloSimulation_Ok _ _ _ _ _ _ _ H)
    as (Hn & _ & _ & _ & Hstat).
  destruct (calculateStatistics_Ok _ _ _ Hstat) as (Hpaths & Hfill & _).
  pose proof (simulatePaths_length M rnd p0 params v0 dr) as Hlen.
  rewrite Hpaths.
  set (ps := simulatePaths M rnd p0 params v0 dr) in *.
  assert (Hne : finalPrices ps <> []).
  { intros E. apply (f_equal (@List.length num)) in E.
    unfold finalPrices in E. rewrite length_map, Hlen in E. simpl in E. lia. }
  unfold sortedPrices in Hfill.
  destruct (accepted_range _ _ _ Hne Hfill)
    as (lo & hi & Emin & Emax & Hlh & Hinlo & Hinhi & Hall & _).
  rewrite Emin, Emax, binSize_Fin in Hfill.
  destruct (fillHistogram_Ok _ _ _ _ _ Hfill)
    as (Hl & Hbin & _ & Hsum & Hcount).
  rewrite emptyHistogram_length in Hl.
  exists lo, hi. repeat split; try assumption.
  - (* the lower edge of bin k *)
    assert (Hk : (k < numBins)%nat)
      by (rewrite <- Hl; apply nth_error_Some; congruence).
    apply (map_nth_error bin) in H0. rewrite Hbin in H0.
    erewrite map_nth_error in H0 by (apply emptyHistogram_nth; exact Hk).
    injection H0 as <-. reflexivity.
  - (* the count of bin k *)
    assert (Hk : (k < numBins)%nat)
      by (rewrite <- Hl; apply nth_error_Some; congruence).
    specialize (Hcount k).
    unfold counts in Hcount at 1 2.
    rewrite (nth_error_nth (map count (histogram r)) k 0%nat
               (map_nth_error count k _ H0)) in Hcount.
    rewrite (nth_error_nth (map count (emptyHistogram _ _)) k 0%nat
               (map_nth_error count k _ (emptyHistogram_nth _ _ k Hk)))
      in Hcount.
    cbn [count] in Hcount. rewrite Hcount, Nat.add_0_l.
    f_equal. apply filter_ext_in. intros p Hp.
    rewrite Forall_forall in Hall.
    destruct (Hall p Hp) as (q & -> & Hq1 & Hq2).
    apply lands_inBin; assumption.
  - (* the greatest price is in the last bin *)
    cbn [inBin]. change (Nat.ltb 49 numBins) with true.
    change (Nat.ltb 49 (numBins - 1)) with false. cbn [andb].
    apply andb_true_intro. split; apply Qle_bool_iff; [| lra].
    unfold binWidth. change (inject_Z (Z.of_nat numBins)) with 50%Q.
    change (inject_Z (Z.of_nat 49)) with 49%Q.
    assert (E : (49 * ((hi + - lo) / 50) == (49 # 50) * (hi + - lo))%Q)
      by field.
    rewrite E. lra.
  - rewrite Hsum, emptyHistogram_sum. unfold finalPrices.
    rewrite length_map, Hlen. reflexivity.
Qed.

(* ================================================================== *)
(** ** The sorted terminal prices and the indices read from them *)

Lemma result_sorted (M : MathLib) (rnd : nat -> num) (p0 : num)
    (params : AnalyticsParams) (v0 dr : num) (r : AnalyticsResult) :
  runMonteCarloSimulation M rnd p0 params v0 dr = Ok r ->
  StronglySorted nleP (sortedPrices (paths r)) /\
  Permutation (sortedPrices (paths r)) (finalPrices (paths r)) /\
  noNaN (sortedPrices (paths r)) /\
  List.length (sortedPrices (paths r)) = Z.to_nat (numPaths params) /\
  List.length (paths r) = Z.to_nat (numPaths params) /\
  (100 <= Z.to_nat (numPaths params))%nat.
Proof.
  intros H.
  destruct (runMonteCarloSimulation_Ok _ _ _ _ _ _ _ H)
    as (Hn & _ & _ & _ & Hstat).
  destruct (calculateStatistics_Ok _ _ _ Hstat) as (Hpaths & Hfill & _).
  pose proof (simulatePaths_length M rnd p0 params v0 dr) as Hlen.
  rewrite Hpaths.
  set (ps := simulatePaths M rnd p0 params v0 dr) in *.
  assert (Hnan : noNaN (finalPrices ps)) by (eapply accepted_noNaN; exact Hfill).
  pose proof (sortAscending_perm (finalPrices ps)) as Hperm.
  fold (sortedPrices ps) in Hperm.
  repeat split.
  - apply sortAscending_sorted. exact Hnan.
  - exact Hperm.
  - eapply noNaN_perm; [symmetry; exact Hperm | exact Hnan].
  - unfold sortedPrices, finalPrices.
    rewrite sortAscending_length, length_map. exact Hlen.
  - exact Hlen.
  - lia.
Qed.

Lemma Qfloor_Qmake (a : Z) (b : positive) : Qfloor (a # b) = (a / Zpos b)%Z.
Proof. reflexivity. Qed.

(** [Math.floor(0.05 * n)] and [Math.floor(0.01 * n)] *)
Lemma var95Index_eq (n : nat) :
  Math_floor (Fin (5 # 100) * ofNat n) = ofNat (n / 20).
Proof.
  unfold ofNat, ofZ. cbn [Math_floor nmul]. unfold ofZ. do 2 f_equal.
  assert (E : ((5 # 100) * inject_Z (Z.of_nat n) == Z.of_nat n # 20)%Q).
  { change ((5 # 100) * inject_Z (Z.of_nat n))%Q
      with ((5 * Z.of_nat n) # 100)%Q.
    unfold Qeq. cbn [Qnum Qden]. lia. }
  rewrite E, Qfloor_Qmake, Nat2Z.inj_div. reflexivity.
Qed.

Lemma var99Index_eq (n : nat) :
  Math_floor (Fin (1 # 100) * ofNat n) = ofNat (n / 100).
Proof.
  unfold ofNat, ofZ. cbn [Math_floor nmul]. unfold ofZ. do 2 f_equal.
  assert (E : ((1 # 100) * inject_Z (Z.of_nat n) == Z.of_nat n # 100)%Q).
  { change ((1 # 100) * inject_Z (Z.of_nat n))%Q
      with ((1 * Z.of_nat n) # 100)%Q.
    unfold Qeq. cbn [Qnum Qden]. lia. }
  rewrite E, Qfloor_Qmake, Nat2Z.inj_div. reflexivity.
Qed.

(** [Math.floor((p / 100) * (n - 1))] for a non-empty array *)
Lemma percentileIndex_eq (n p : nat) :
  (1 <= n)%nat -> percentileIndex n p = ofNat (p * (n - 1) / 100).
Proof.
  intros Hn. unfold percentileIndex, ofNat, ofZ.
  rewrite ndiv_Fin by discriminate.
  cbn [Math_floor nmul nsub nadd nneg]. unfold ofZ. do 2 f_equal.
  assert (E : (inject_Z (Z.of_nat p) / 100
               * (inject_Z (Z.of_nat n) + - (1))
               == Z.of_nat (p * (n - 1)) # 100)%Q).
  { rewrite Nat2Z.inj_mul, Nat2Z.inj_sub by exact Hn.
    rewrite (Qmake_Qdiv _ 100), inject_Z_mult.
    unfold Z.sub. rewrite inject_Z_plus, inject_Z_opp.
    change (inject_Z (Z.of_nat 1)) with 1%Q.
    change (inject_Z (Zpos 100)) with 100%Q. field. }
  rewrite E, Qfloor_Qmake, Nat2Z.inj_div. reflexivity.
Qed.

Lemma arrayGet_ofNat {A : Type} (a : list A) (k : nat) :
  arrayGet a (ofNat k) = nth_error a k.
Proof. unfold arrayGet. rewrite arrayIndex_ofNat. reflexivity. Qed.

Lemma slice0_ofNat_succ {A : Type} (a : list A) (k : nat) :
  slice0 a (ofNat k + Fin 1) = firstn (S k) a.
Proof. unfold slice0. rewrite arrayIndex_ofNat_succ. reflexivity. Qed.

(* ================================================================== *)
(** ** Percentiles *)

Lemma percentileLevels_le (p : nat) : In p percentileLevels -> (p <= 100)%nat.
Proof.
  unfold percentileLevels. simpl.
  intros H. repeat (destruct H as [<- | H]; [lia |]). contradiction.
Qed.

Lemma rank_in_range (p n : nat) :
  (p <= 100)%nat -> (1 <= n)%nat -> (p * (n - 1) / 100 < n)%nat.
Proof.
  intros Hp Hn.
  assert (p * (n - 1) / 100 <= n - 1)%nat; [| lia].
  apply Nat.Div0.div_le_upper_bound. nia.
Qed.



(* ================================================================== *)
(** ** Value at risk and expected shortfall *)



(* ================================================================== *)
(** ** The histogram of a result *)



(* ================================================================== *)
(** ** analyzeRegime *)

Lemma label_counts (regimes : list num) :
  Forall (fun g => isLabel g = true) regimes ->
  (List.length (filter isBull regimes) + List.length (filter isBear regimes)
   = List.length regimes)%nat.
Proof.
  induction 1 as [| g regimes Hg _ IH]; [reflexivity |].
  cbn [filter List.length].
  assert (E : isBull g = negb (isBear g)).
  { unfold isLabel, isBull, isBear, ngt in *.
    destruct g as [q | | |]; simpl in Hg; try discriminate.
    simpl. apply orb_true_iff in Hg.
    destruct Hg as [Hg | Hg]; qprops;
      repeat qcase; qprops; try reflexivity; exfalso; lra. }
  rewrite E. destruct (isBear g); cbn [negb List.length]; lia.
Qed.

Lemma filterByRegime_length (keep : num -> bool) (returns : list num) :
  forall regimes,
    List.length returns = List.length regimes ->
    List.length (filterByRegime keep returns regimes)
    = List.length (filter keep regimes).
Proof.
  induction returns as [| r returns IH]; intros [| g regimes] H;
    try discriminate; [reflexivity |].
  cbn [filterByRegime filter nth_error toNumber tl].
  injection H as H.
  destruct (keep g); cbn [List.length]; rewrite (IH regimes H); reflexivity.
Qed.

Lemma analyzeRegime_Ok (M : MathLib) (returns regimes : list num) :
  List.length returns = List.length regimes ->
  exists a,
    analyzeRegime M returns regimes = Ok a /\
    bullMarketProbability a
    = ofNat (List.length (filter isBull regimes))
      / ofNat (List.length regimes) /\
    bearMarketProbability a
    = ofNat (List.length (filter isBear regimes))
      / ofNat (List.length regimes) /\
    bull (regimeVolatility a)
    = regimeStdDev M (filterByRegime isBull returns regimes)
        (meanOrZero (filterByRegime isBull returns regimes)) /\
    bear (regimeVolatility a)
    = regimeStdDev M (filterByRegime isBear returns regimes)
        (meanOrZero (filterByRegime isBear returns regimes)).
Proof.
  intros H. unfold analyzeRegime.
  rewrite H, Nat.eqb_refl. cbn [negb throwIf bind].
  eexists. split; [reflexivity |]. cbn. repeat split.
Qed.

Lemma analyzeRegime_Ok_length (M : MathLib) (returns regimes : list num)
    (a : RegimeAnalysis) :
  analyzeRegime M returns regimes = Ok a ->
  List.length returns = List.length regimes.
Proof.
  unfold analyzeRegime. intros H. inv_bind.
  apply negb_false_iff, Nat.eqb_eq in Ha. exact Ha.
Qed.

(** C8.  For a non-empty array of regime labels, each +1 or -1, and as
    many returns, [analyzeRegime] returns probabilities of the two regimes
    that add up to 1. *)
Theorem analyzeRegime_probabilities_sum (M : MathLib)
    (returns regimes : list num) :
  regimes <> [] ->
  List.length returns = List.length regimes ->
  Forall (fun g => isLabel g = true) regimes ->
  exists a,
    analyzeRegime M returns regimes = Ok a /\
    neqb (bullMarketProbability a + bearMarketProbability a) (Fin 1) = true.
Proof.
  intros Hne Hlen Hlab.
  destruct (analyzeRegime_Ok M returns regimes Hlen)
    as (a & Ha & Hbull & Hbear & _).
  exists a. split; [exact Ha |].
  rewrite Hbull, Hbear.
  pose proof (label_counts regimes Hlab) as Hc.
  set (nb := List.length (filter isBull regimes)) in *.
  set (nr := List.length (filter isBear regimes)) in *.
  assert (Hn : (0 < List.length regimes)%nat)
    by (destruct regimes; [congruence | simpl; lia]).
  set (n := List.length regimes) in *.
  assert (Hnz : ~ (inject_Z (Z.of_nat n) == 0)%Q).
  { change 0%Q with (inject_Z 0). rewrite inject_Z_injective. lia. }
  unfold ofNat, ofZ. rewrite !ndiv_Fin by exact Hnz.
  cbn [nadd neqb]. apply Qeq_bool_iff.
  assert (E : (inject_Z (Z.of_nat nb) + inject_Z (Z.of_nat nr)
               == inject_Z (Z.of_nat n))%Q).
  { rewrite <- inject_Z_plus, <- Nat2Z.inj_add, Hc. reflexivity. }
  transitivity ((inject_Z (Z.of_nat nb) + inject_Z (Z.of_nat nr))
                / inject_Z (Z.of_nat n))%Q.
  - field. exact Hnz.
  - rewrite E. field. exact Hnz.
Qed.

Lemma analyzeRegime_probabilities_sum_witness :
  exists a,
    analyzeRegime toyMath [Fin (1 # 100); Fin (-2 # 100); Fin (3 # 100)]
      [Fin 1; Fin (-1); Fin (-1)] = Ok a /\
    neqb (bullMarketProbability a + bearMarketProbability a) (Fin 1) = true.
Proof.
  apply (analyzeRegime_probabilities_sum toyMath
           [Fin (1 # 100); Fin (-2 # 100); Fin (3 # 100)]
           [Fin 1; Fin (-1); Fin (-1)]).
  - discriminate.
  - reflexivity.
  - repeat constructor.
Defined.

Lemma ndiv_zero_zero (x y : Q) :
  (x == 0)%Q -> (y == 0)%Q -> Fin x / Fin y = NaN.
Proof.
  intros Hx Hy. cbn [ndiv]. unfold infTimes.
  apply Qeq_bool_iff in Hx, Hy. rewrite Hx, Hy. reflexivity.
Qed.

(** The sample standard deviation of a single return divides 0 by 0. *)
Lemma regimeStdDev_single (M : MathLib) (x : num) :
  regimeStdDev M [x] (meanOrZero [x]) = NaN.
Proof.
  unfold regimeStdDev, meanOrZero, sumOf.
  cbn [List.length Nat.ltb Nat.leb fold_left Math_pow].
  destruct x as [q | | |]; try reflexivity.
  unfold ofNat, ofZ. cbn [nadd].
  rewrite (ndiv_Fin _ (inject_Z (Z.of_nat 1))) by discriminate.
  cbn [nadd nsub nneg nmul].
  rewrite ndiv_zero_zero; [reflexivity | | reflexivity].
  change (inject_Z (Z.of_nat 1)) with 1%Q. field.
Qed.



(* ================================================================== *)
(** ** When the statistics are returned and when they are not *)

Lemma bumpAt_defined (h : list HistogramBin) :
  forall k, (k < List.length h)%nat -> exists h', bumpAt h k = Some h'.
Proof.
  induction h as [| b h IH]; intros k Hk; [simpl in Hk; lia |].
  destruct k as [| k]; simpl; [eauto |].
  destruct (IH k) as (h' & E); [simpl in Hk; lia |].
  rewrite E. simpl. eauto.
Qed.

Lemma fillHistogram_defined (minPrice binSize : num) (prices : list num) :
  forall h,
    Forall (fun price =>
              exists k, arrayIndex (binIndexOf minPrice binSize price) = Some k
                        /\ (k < List.length h)%nat) prices ->
    exists h', fillHistogram minPrice binSize h prices = Ok h'.
Proof.
  induction prices as [| price rest IH]; intros h Hall; [simpl; eauto |].
  inversion Hall as [| ? ? (k & Ek & Hk) Hrest]; subst.
  destruct (bumpAt_defined h k Hk) as (h1 & E1).
  cbn [fillHistogram]. unfold bumpCount. rewrite Ek, E1. cbn [bind].
  apply IH.
  destruct (bumpAt_Some h k h1 E1) as (_ & Hl & _).
  rewrite Hl. exact Hrest.
Qed.

(** The only exception of the histogram loop is the TypeError of reading
    [count] of [undefined]. *)
Lemma fillHistogram_throws (minPrice binSize : num) (prices : list num) :
  forall h e, fillHistogram minPrice binSize h prices = Throw e -> e = TypeError.
Proof.
  induction prices as [| price rest IH]; intros h e H; [discriminate |].
  cbn [fillHistogram] in H. unfold bumpCount in H.
  destruct (arrayIndex (binIndexOf minPrice binSize price)) as [k |];
    [| simpl in H; congruence].
  destruct (bumpAt h k) as [h1 |]; [| simpl in H; congruence].
  cbn [bind] in H. eapply IH. exact H.
Qed.

(** [calculateStatistics] returns or throws as its histogram loop does. *)
Lemma calculateStatistics_outcome (ps : list (list num)) (p0 : num) :
  match
    fillHistogram (minOf (sortedPrices ps))
      ((maxOf (sortedPrices ps) - minOf (sortedPrices ps)) / ofNat numBins)
      (emptyHistogram (minOf (sortedPrices ps))
         ((maxOf (sortedPrices ps) - minOf (sortedPrices ps)) / ofNat numBins))
      (finalPrices ps)
  with
  | Ok _ => exists r, calculateStatistics ps p0 = Ok r
  | Throw _ => calculateStatistics ps p0 = Throw TypeError
  end.
Proof.
  destruct (fillHistogram _ _ _ (finalPrices ps)) as [h | e] eqn:E.
  - unfold calculateStatistics.
    unfold sortedPrices, finalPrices, minOf, maxOf, emptyHistogram in E.
    rewrite E. cbn [bind]. eauto.
  - pose proof (fillHistogram_throws _ _ _ _ _ E) as ->.
    unfold calculateStatistics.
    unfold sortedPrices, finalPrices, minOf, maxOf, emptyHistogram in E.
    rewrite E. reflexivity.
Qed.

(** The statistics are returned when every terminal price is finite and
    two of them differ. *)
Lemma calculateStatistics_returns (ps : list (list num)) (p0 : num) :
  Forall (fun p => isFinite p = true) (finalPrices ps) ->
  (exists x y, In x (finalPrices ps) /\ In y (finalPrices ps) /\
               (x <? y) = true) ->
  exists r, calculateStatistics ps p0 = Ok r.
Proof.
  intros Hfin (x & y & Hx & Hy & Hxy).
  assert (Hne : finalPrices ps <> []) by (intros E; rewrite E in Hx; exact Hx).
  assert (Hnan : noNaN (finalPrices ps)).
  { eapply Forall_impl; [| exact Hfin]. intros [q | | |]; simpl; congruence. }
  destruct (sorted_ends _ Hne Hnan) as (Hin0 & Hinl & Hbounds).
  rewrite Forall_forall in Hfin.
  pose proof (calculateStatistics_outcome ps p0) as Hout.
  unfold sortedPrices in Hout.
  set (s0 := minOf (sortAscending (finalPrices ps))) in *.
  set (sl := maxOf (sortAscending (finalPrices ps))) in *.
  clearbody s0 sl.
  pose proof (Hfin s0 Hin0) as F0. pose proof (Hfin sl Hinl) as Fl.
  destruct s0 as [lo | | |]; try discriminate.
  destruct sl as [hi | | |]; try discriminate.
  assert (Hlh : (lo < hi)%Q).
  { destruct (Hbounds x Hx) as (Bx & _). destruct (Hbounds y Hy) as (_ & By).
    pose proof (Hfin x Hx) as Fx. pose proof (Hfin y Hy) as Fy.
    destruct x as [qx | | |]; try discriminate.
    destruct y as [qy | | |]; try discriminate.
    unfold nleP in *. simpl in *. qprops. lra. }
  rewrite binSize_Fin in Hout.
  destruct (fillHistogram_defined (Fin lo) (Fin (binWidth lo hi))
              (finalPrices ps) (emptyHistogram (Fin lo) (Fin (binWidth lo hi))))
    as (h & Eh).
  { apply Forall_forall. intros p Hp.
    destruct (Hbounds p Hp) as (B1 & B2).
    destruct (nle_Fin_bounds lo hi p B1 B2) as (q & -> & Hq1 & Hq2).
    destruct (binIndexOf_spec lo hi q Hlh Hq1 Hq2) as (k & Ek & Hk & _).
    exists k. split; [exact Ek |].
    rewrite emptyHistogram_length. exact Hk. }
  rewrite Eh in Hout. exact Hout.
Qed.

(** They are not returned when all terminal prices are the same: the bin
    size is then 0 (or not a number) and the first bin index is NaN. *)
Lemma calculateStatistics_equal_prices (ps : list (list num)) (p0 x : num) :
  ps <> [] ->
  Forall (fun path => finalPrice path = x) ps ->
  calculateStatistics ps p0 = Throw TypeError.
Proof.
  intros Hne Hall.
  pose proof (calculateStatistics_outcome ps p0) as Hout.
  destruct (fillHistogram _ _ _ (finalPrices ps)) as [h | e] eqn:E;
    [exfalso | exact Hout].
  assert (Hfne : finalPrices ps <> []).
  { destruct ps; [congruence | discriminate]. }
  unfold sortedPrices in E.
  destruct (accepted_range _ _ _ Hfne E)
    as (lo & hi & _ & _ & Hlh & Hlo & Hhi & _).
  assert (Heq : forall p, In p (finalPrices ps) -> p = x).
  { intros p Hp. unfold finalPrices in Hp. apply in_map_iff in Hp.
    destruct Hp as (path & <- & Hin).
    rewrite Forall_forall in Hall. auto. }
  pose proof (Heq _ Hlo) as E1. pose proof (Heq _ Hhi) as E2.
  rewrite <- E2 in E1. injection E1 as ->. lra.
Qed.

Section ConstantStream.
Variable M : MathLib.
Variables omega a b dr c : num.

(** With a stream that always gives the same answer every run of the
    inner loop pushes the same prices. *)
Lemma stepLoop_constant (s : nat) :
  forall p v k k',
    fst (stepLoop M (fun _ => c) omega a b dr s p v k)
    = fst (stepLoop M (fun _ => c) omega a b dr s p v k').
Proof.
  induction s as [| s IH]; intros p v k k'; [reflexivity |].
  rewrite !stepLoop_S. cbn [fst].
  change (stepPrice M dr (fun _ => c) p v k')
    with (stepPrice M dr (fun _ => c) p v k).
  change (stepVol M omega a b dr (fun _ => c) v k')
    with (stepVol M omega a b dr (fun _ => c) v k).
  f_equal. apply IH.
Qed.

Lemma pathLoop_constant (s : nat) (p0 v0 : num) (n : nat) :
  forall k,
    Forall (fun path =>
              path = p0 :: fst (stepLoop M (fun _ => c) omega a b dr s p0 v0 0))
      (fst (pathLoop M (fun _ => c) omega a b dr s p0 v0 n k)).
Proof.
  intros k. eapply Forall_impl; [| apply pathLoop_paths].
  intros path (k' & ->). f_equal. apply stepLoop_constant.
Qed.
End ConstantStream.


(* ================================================================== *)
(** ** The indices in double precision *)

(** X29.  For every number of paths that passes validation the indices
    of the value at risk and of the seven percentiles, computed on doubles
    as the code computes them, are the exact floors that the theorems
    above use. *)
Lemma double_indices_agree (n : Z) :
  (100 <= n <= 10000)%Z -> doubleIndicesAgree n = true.
Proof.
  intros Hn.
  assert (H : forallb doubleIndicesAgree validPathCounts = true)
    by (vm_compute; reflexivity).
  rewrite forallb_forall in H. apply H.
  unfold validPathCounts. apply in_map_iff.
  exists (Z.to_nat (n - 100)). split; [lia |].
  apply in_seq. lia.
Qed.

(** X30.  The sum of the two regime probabilities is exactly 1 on doubles
    as well, for every split of up to 512 labels into the two regimes. *)
Lemma double_probabilities_sum (total bull : Z) :
  (1 <= total <= 512)%Z -> (0 <= bull <= total)%Z ->
  doubleProbabilitiesSum total bull = true.
Proof.
  intros Ht Hb.
  assert (H : forallb
                (fun t => (t =? 0)%Z
                          || forallb (doubleProbabilitiesSum t) (upTo t))
                (upTo 512) = true)
    by (vm_compute; reflexivity).
  rewrite forallb_forall in H.
  assert (In_upTo : forall n k, (0 <= k <= n)%Z -> In k (upTo n)).
  { intros n k Hk. unfold upTo. apply in_map_iff.
    exists (Z.to_nat k). split; [lia |]. apply in_seq. lia. }
  specialize (H total (In_upTo 512%Z total ltac:(lia))).
  apply orb_true_iff in H. destruct H as [H | H].
  - apply Z.eqb_eq in H. lia.
  - rewrite forallb_forall in H. apply H, In_upTo. exact Hb.
Qed.

(* ================================================================== *)
(** ** validateParams *)

Lemma unit_guard (a : num) :
  isNaN a = false -> (a <? Fin 0) || (a >? Fin 1) = negb (inUnit a).
Proof.
  unfold inUnit, ngt. destruct a as [q | | |]; simpl; try discriminate;
    intros _; try reflexivity.
  repeat qcase; simpl; try reflexivity; qprops; exfalso; lra.
Qed.

Lemma inUnit_Fin (a : num) :
  inUnit a = true -> exists q, a = Fin q /\ (0 <= q)%Q /\ (q <= 1)%Q.
Proof.
  unfold inUnit. destruct a as [q | | |]; simpl; try discriminate.
  intros H. apply andb_true_iff in H. destruct H. qprops. eauto.
Qed.



(* ================================================================== *)
(** ** calculateReturns and calculateGARCHVolatility, continued *)

(** X2.  When [calculateReturns] returns, it returns one value per pair of
    neighbouring prices: [prices.length - 1] values, the one at index [i]
    being [Math.log(prices[i + 1].close / prices[i].close)]. *)
Theorem calculateReturns_log_returns (M : MathLib)
    (prices : list PricePoint) (returns : list num) :
  calculateReturns M prices = Ok returns ->
  List.length returns = (List.length prices - 1)%nat /\
  forall i p q,
    nth_error prices i = Some p -> nth_error prices (S i) = Some q ->
    nth_error returns i = Some (Math_log M (close q / close p)).
Proof.
  intros H. split; [eapply calculateReturns_length; exact H |].
  intros i p q. apply calculateReturns_nth. exact H.
Qed.

Lemma calculateReturns_log_returns_witness :
  List.length [Math_log toyMath (Fin 110 / Fin 100);
               Math_log toyMath (Fin 99 / Fin 110)]
  = (List.length [point 100; point 110; point 99] - 1)%nat /\
  forall i p q,
    nth_error [point 100; point 110; point 99] i = Some p ->
    nth_error [point 100; point 110; point 99] (S i) = Some q ->
    nth_error [Math_log toyMath (Fin 110 / Fin 100);
               Math_log toyMath (Fin 99 / Fin 110)] i
    = Some (Math_log toyMath (close q / close p)).
Proof.
  apply (calculateReturns_log_returns toyMath
           [point 100; point 110; point 99]).
  reflexivity.
Defined.

(** X3.  [calculateReturns] throws exactly when there are fewer than two
    prices or a close other than the last one is not above 0; whether the
    last close is positive plays no part. *)
Theorem calculateReturns_throws_exactly (M : MathLib)
    (prices : list PricePoint) :
  isOk (calculateReturns M prices) = false <->
  (List.length prices < 2)%nat \/
  Exists (fun p => (close p <=? Fin 0) = true) (removelast prices).
Proof. apply calculateReturns_throws_iff. Qed.

Lemma garchLoop_length (M : MathLib) (omega a b : num) (shocks : list num) :
  forall prevVol,
    List.length (garchLoop M omega a b prevVol shocks) = List.length shocks.
Proof.
  induction shocks as [| r rest IH]; intros prevVol; [reflexivity |].
  cbn [garchLoop List.length]. rewrite IH. reflexivity.
Qed.

Lemma removelast_length {A : Type} (l : list A) :
  List.length (removelast l) = (List.length l - 1)%nat.
Proof.
  induction l as [| x [| y l] IH]; try reflexivity.
  change (removelast (x :: y :: l)) with (x :: removelast (y :: l)).
  cbn [List.length] in *. rewrite IH. lia.
Qed.

Lemma clamp_clamped (v : num) :
  clamped (Math_max (Math_min v MAX_VARIANCE) MIN_VARIANCE).
Proof.
  unfold clamped, Math_max, Math_min, MAX_VARIANCE, MIN_VARIANCE.
  destruct v as [q | | |]; simpl;
    try (left; reflexivity); try (right; split; reflexivity).
  destruct (Qlt_bool 10000 q) eqn:E1; simpl; right.
  - split; reflexivity.
  - destruct (Qlt_bool q (1 # 100000000)) eqn:E2; simpl;
      split; qprops; lra.
Qed.

Lemma max_floored (v : num) : floored (Math_max v MIN_VARIANCE).
Proof.
  unfold floored, Math_max, MIN_VARIANCE.
  destruct v as [q | | |]; simpl;
    try (left; reflexivity); try (right; reflexivity).
  destruct (Qlt_bool q (1 # 100000000)) eqn:E; simpl; right; qprops; lra.
Qed.

Lemma clamped_floored (b : num) : clamped b -> floored b.
Proof. unfold clamped, floored. tauto. Qed.

Lemma garchLoop_clamped (M : MathLib) (omega a b : num) (shocks : list num) :
  forall prevVol,
    Forall (fun vol => exists v, vol = Math_sqrt M v /\ clamped v)
      (garchLoop M omega a b prevVol shocks).
Proof.
  induction shocks as [| r rest IH]; intros prevVol; [constructor |].
  cbn [garchLoop]. constructor; [| apply IH].
  eexists. split; [reflexivity | apply clamp_clamped].
Qed.

(** X4.  When [calculateGARCHVolatility] returns, it returns as many
    volatilities as there are returns, each the square root of a variance
    that is 1e-8 or more (or NaN); from the second one on the variance is
    also 1e4 or less. *)
Theorem calculateGARCHVolatility_output (M : MathLib) (returns : list num)
    (a b : num) (vols : list num) :
  calculateGARCHVolatility M returns a b = Ok vols ->
  List.length vols = List.length returns /\
  Forall (fun vol => exists v, vol = Math_sqrt M v /\ floored v) vols /\
  Forall (fun vol => exists v, vol = Math_sqrt M v /\ clamped v) (tl vols).
Proof.
  unfold calculateGARCHVolatility. intros H. inv_bind.
  destruct (Nat.eqb (List.length returns) 1) eqn:E1.
  - apply Nat.eqb_eq in E1. injection H as <-.
    split; [simpl; lia |]. split; [| constructor].
    constructor; [| constructor].
    eexists. split; [reflexivity | apply max_floored].
  - injection H as <-. cbn [List.length tl].
    rewrite garchLoop_length, removelast_length.
    apply Nat.eqb_neq in Ha. split; [lia |]. split.
    + constructor; [eexists; split; [reflexivity | apply max_floored] |].
      eapply Forall_impl; [| apply garchLoop_clamped].
      intros vol (v & Ev & Hv). exists v. split; [exact Ev |].
      apply clamped_floored. exact Hv.
    + apply garchLoop_clamped.
Qed.

Lemma calculateGARCHVolatility_output_witness :
  exists vols,
    calculateGARCHVolatility toyMath
      [Fin (1 # 100); Fin (-2 # 100); Fin (3 # 100)]
      (Fin (1 # 10)) (Fin (8 # 10)) = Ok vols /\
    List.length vols = 3%nat /\
    Forall (fun vol => exists v, vol = Math_sqrt toyMath v /\ floored v) vols /\
    Forall (fun vol => exists v, vol = Math_sqrt toyMath v /\ clamped v)
      (tl vols).
Proof.
  eexists. split; [reflexivity |].
  apply (calculateGARCHVolatility_output toyMath
           [Fin (1 # 100); Fin (-2 # 100); Fin (3 # 100)]
           (Fin (1 # 10)) (Fin (8 # 10))).
  reflexivity.
Defined.

(** X5.  [calculateGARCHVolatility] tests for an empty list first: on no
    returns it throws "No returns data provided" whatever alpha and beta
    are, and on a non-empty list it never throws that error. *)
Theorem calculateGARCHVolatility_empty (M : MathLib) (returns : list num)
    (a b : num) :
  calculateGARCHVolatility M returns a b
  = Throw (Error "No returns data provided") <-> returns = [].
Proof.
  unfold calculateGARCHVolatility. split.
  - destruct returns as [| r returns]; [reflexivity |].
    cbn [List.length Nat.eqb throwIf bind].
    destruct ((a <? Fin 0) || (b <? Fin 0) || (a + b >=? Fin 1));
      cbn [throwIf bind]; [discriminate |].
    match goal with
    | |- context [if ?c then _ else _] => destruct c
    end; discriminate.
  - intros ->. reflexivity.
Qed.

(* ================================================================== *)
(** ** calculateTrendAndDrift *)

Lemma Qsquare_nonneg (a : Q) : (0 <= a * a)%Q.
Proof. destruct a as [n d]. unfold Qle, Qmult. cbn [Qnum Qden]. nia. Qed.

Section TrendFacts.
Variable M : MathLib.

Lemma logPricesOf_throws_iff (prices : list PricePoint) :
  isOk (logPricesOf M prices) = false <->
  Exists (fun p => (close p <=? Fin 0) = true) prices.
Proof.
  induction prices as [| p rest IH].
  - simpl. split; [discriminate | intros H; inversion H].
  - rewrite Exists_cons, <- IH. cbn [logPricesOf].
    destruct (close p <=? Fin 0); cbn [throwIf bind].
    + simpl. tauto.
    + destruct (logPricesOf M rest); simpl;
        split; auto; intros [H | H]; congruence.
Qed.

Lemma logPricesOf_Ok (prices : list PricePoint) (logs : list num) :
  logPricesOf M prices = Ok logs ->
  logs = map (fun p => Math_log M (close p)) prices.
Proof.
  revert logs. induction prices as [| p rest IH]; intros logs H.
  - injection H as <-. reflexivity.
  - cbn [logPricesOf] in H. inv_bind. injection H as <-.
    cbn [map]. f_equal. apply IH. assumption.
Qed.

(** The denominator of the regression only grows, and stays finite. *)
Lemma regressionLoop_denominator (xm : Q) (yMean : num) (logs : list num) :
  forall i numerator d,
    exists d',
      snd (regressionLoop (Fin xm) yMean i logs numerator (Fin d)) = Fin d'
      /\ (d <= d')%Q.
Proof.
  induction logs as [| y rest IH]; intros i numerator d.
  - exists d. split; [reflexivity | lra].
  - cbn [regressionLoop]. unfold ofNat, ofZ.
    cbn [Math_pow nsub nadd nneg nmul].
    destruct (IH (S i)
                (numerator
                 + Fin (inject_Z (Z.of_nat i) + - xm) * (y - yMean))
                (d + (inject_Z (Z.of_nat i) + - xm)
                     * (inject_Z (Z.of_nat i) + - xm))%Q)
      as (d' & E & Hd).
    exists d'. split; [exact E |].
    pose proof (Qsquare_nonneg (inject_Z (Z.of_nat i) + - xm)).
    lra.
Qed.

(** With two prices or more the denominator is at least 1/4. *)
Lemma regression_denominator_bound (n : nat) (yMean : num) (logs : list num)
    (numerator denominator : num) :
  (2 <= n)%nat -> logs <> [] ->
  regressionLoop ((ofNat n - Fin 1) / Fin 2) yMean 0 logs (Fin 0) (Fin 0)
  = (numerator, denominator) ->
  exists d, denominator = Fin d /\ (1 # 4 <= d)%Q.
Proof.
  intros Hn Hne H.
  destruct logs as [| y rest]; [congruence |].
  unfold ofNat, ofZ in H. cbn [nsub nadd nneg] in H.
  rewrite ndiv_Fin in H by discriminate.
  cbn [regressionLoop] in H. unfold ofNat, ofZ in H.
  cbn [Math_pow nsub nadd nneg nmul] in H.
  match type of H with
  | regressionLoop (Fin ?xm) ?ym ?i ?l ?nu (Fin ?d0) = _ =>
      destruct (regressionLoop_denominator xm ym l i nu d0) as (d' & E & Hd);
      rewrite H in E; cbn [snd] in E;
      exists d'; split; [exact E |];
      assert (Hb : (1 # 4 <= d0)%Q); [| lra]
  end.
  assert (Hx : (1 <= inject_Z (Z.of_nat n) + - (1))%Q).
  { assert (2 <= inject_Z (Z.of_nat n))%Q; [| lra].
    change 2%Q with (inject_Z 2). rewrite <- Zle_Qle. lia. }
  change (inject_Z (Z.of_nat 0)) with 0%Q.
  set (u := (inject_Z (Z.of_nat n) + - (1))%Q) in *. clearbody u.
  assert (E2 : (0 + (0 + - (u / 2)) * (0 + - (u / 2)) == u * u / 4)%Q) by field.
  rewrite E2.
  assert (1 <= u * u)%Q.
  { assert (0 <= (u - 1) * (u - 1))%Q by apply Qsquare_nonneg.
    assert (0 <= (u - 1) * 1)%Q by (apply Qmult_le_0_compat; lra).
    lra. }
  set (uu := (u * u)%Q) in *. clearbody uu.
  apply Qle_shift_div_l; [reflexivity | lra].
Qed.

Lemma Math_abs_small (d : Q) :
  (1 # 4 <= d)%Q -> (Math_abs (Fin d) <? Fin (1 # 10000000000)) = false.
Proof.
  intros H. cbn [Math_abs nlt]. apply Qlt_bool_false.
  rewrite Qabs_pos by lra. lra.
Qed.

(** What a successful call went through. *)
Lemma calculateTrendAndDrift_Ok (prices : list PricePoint) (theta : num)
    (td : TD.t) :
  calculateTrendAndDrift M prices theta = Ok td ->
  (2 <= List.length prices)%nat /\
  (theta <? Fin 0) || (theta >? Fin 1) = false /\
  exists lastPoint numerator denominator,
    nth_error prices (List.length prices - 1) = Some lastPoint /\
    regressionLoop ((ofNat (List.length prices) - Fin 1) / Fin 2)
      (sumOf (fun y => y) (map (fun p => Math_log M (close p)) prices)
       / ofNat (List.length prices))
      0 (map (fun p => Math_log M (close p)) prices) (Fin 0) (Fin 0)
    = (numerator, denominator) /\
    TD.trend td
    = Math_exp M (numerator / denominator * ofNat (List.length prices)) /\
    TD.drift td
    = theta * (TD.trend td - close lastPoint) / close lastPoint.
Proof.
  unfold calculateTrendAndDrift. intros H.
  apply bind_Ok in H. destruct H as (u1 & H1 & H).
  apply bind_Ok in H. destruct H as (u2 & H2 & H).
  apply bind_Ok in H. destruct H as (logs & Hl & H).
  apply throwIf_Ok in H1, H2. apply Nat.ltb_ge in H1.
  apply logPricesOf_Ok in Hl. subst logs.
  split; [exact H1 |]. split; [exact H2 |].
  destruct (regressionLoop _ _ 0 _ (Fin 0) (Fin 0)) as [nu de] eqn:E.
  destruct (nth_error prices (List.length prices - 1)) as [lp |] eqn:El;
    [| discriminate].
  assert (Hne : map (fun p => Math_log M (close p)) prices <> [])
    by (destruct prices; [simpl in H1; lia | discriminate]).
  destruct (regression_denominator_bound _ _ _ _ _ H1 Hne E)
    as (d & -> & Hd).
  rewrite (Math_abs_small d Hd) in H. injection H as <-.
  exists lp, nu, (Fin d). cbn [TD.trend TD.drift]. auto.
Qed.

(** The three ways in which [calculateTrendAndDrift] throws. *)
Lemma calculateTrendAndDrift_isOk_false (prices : list PricePoint)
    (theta : num) :
  isOk (calculateTrendAndDrift M prices theta) = false <->
  (List.length prices < 2)%nat \/
  (theta <? Fin 0) || (theta >? Fin 1) = true \/
  Exists (fun p => (close p <=? Fin 0) = true) prices.
Proof.
  rewrite <- logPricesOf_throws_iff.
  unfold calculateTrendAndDrift.
  destruct (Nat.ltb (List.length prices) 2) eqn:E1; cbn [throwIf bind].
  { apply Nat.ltb_lt in E1. simpl. tauto. }
  apply Nat.ltb_ge in E1.
  destruct ((theta <? Fin 0) || (theta >? Fin 1)) eqn:E2; cbn [throwIf bind].
  { simpl. tauto. }
  destruct (logPricesOf M prices) as [logs | e] eqn:El; cbn [bind].
  2:{ simpl. tauto. }
  assert (Hok : isOk
                  (let (numerator, denominator) :=
                     regressionLoop
                       ((ofNat (List.length prices) - Fin 1) / Fin 2)
                       (sumOf (fun y => y) logs / ofNat (List.length prices))
                       0 logs (Fin 0) (Fin 0) in
                   match nth_error prices (List.length prices - 1) with
                   | Some lastPoint =>
                       if Math_abs denominator <? Fin (1 # 10000000000)
                       then Ok {| TD.trend := close lastPoint;
                                  TD.drift := Fin 0 |}
                       else
                         Ok {| TD.trend :=
                                 Math_exp M
                                   (numerator / denominator
                                    * ofNat (List.length prices));
                               TD.drift :=
                                 theta
                                 * (Math_exp M
                                      (numerator / denominator
                                       * ofNat (List.length prices))
                                    - close lastPoint)
                                 / close lastPoint |}
                   | None => Throw TypeError
                   end) = true).
  { destruct (regressionLoop _ _ 0 logs (Fin 0) (Fin 0)) as [nu de].
    destruct (nth_error_defined prices (List.length prices - 1)) as (lp & Elp);
      [lia |].
    rewrite Elp. destruct (Math_abs de <? _); reflexivity. }
  rewrite Hok. simpl. split; [discriminate |].
  intros [H | [H | H]]; [lia | discriminate | discriminate].
Qed.

(** X6.  [calculateTrendAndDrift] throws exactly when there are fewer than
    two prices, or theta is below 0 or above 1, or some close (the last
    one included) is not above 0. *)
Theorem calculateTrendAndDrift_throws_iff (prices : list PricePoint)
    (theta : num) :
  isOk (calculateTrendAndDrift M prices theta) = false <->
  (List.length prices < 2)%nat \/
  (theta <? Fin 0) || (theta >? Fin 1) = true \/
  Exists (fun p => (close p <=? Fin 0) = true) prices.
Proof.
  apply calculateTrendAndDrift_isOk_false.
Qed.

(** X7.  The fallback of [calculateTrendAndDrift] for a regression
    denominator of about 0 is never taken: with two prices or more the
    denominator is 1/4 or more, far from the threshold 1e-10, so every
    result has [trend = Math.exp(numerator / denominator * n)] and
    [drift = theta * (trend - lastClose) / lastClose]. *)
Theorem calculateTrendAndDrift_regular (prices : list PricePoint)
    (theta : num) (td : TD.t) :
  calculateTrendAndDrift M prices theta = Ok td ->
  exists lastPoint numerator denominator d,
    nth_error prices (List.length prices - 1) = Some lastPoint /\
    regressionLoop ((ofNat (List.length prices) - Fin 1) / Fin 2)
      (sumOf (fun y => y) (map (fun p => Math_log M (close p)) prices)
       / ofNat (List.length prices))
      0 (map (fun p => Math_log M (close p)) prices) (Fin 0) (Fin 0)
    = (numerator, denominator) /\
    denominator = Fin d /\ (1 # 4 <= d)%Q /\
    TD.trend td
    = Math_exp M (numerator / denominator * ofNat (List.length prices)) /\
    TD.drift td = theta * (TD.trend td - close lastPoint) / close lastPoint.
Proof.
  intros H.
  destruct (calculateTrendAndDrift_Ok _ _ _ H)
    as (Hn & _ & lp & nu & de & El & Er & Et & Ed).
  assert (Hne : map (fun p => Math_log M (close p)) prices <> [])
    by (destruct prices; [simpl in Hn; lia | discriminate]).
  destruct (regression_denominator_bound _ _ _ _ _ Hn Hne Er)
    as (d & Ede & Hd).
  exists lp, nu, de, d. auto 10.
Qed.
End TrendFacts.

Lemma calculateTrendAndDrift_regular_witness :
  exists td,
    calculateTrendAndDrift toyMath [point 100; point 110; point 105]
      (Fin (5 # 100)) = Ok td /\
    exists lastPoint numerator denominator d,
      nth_error [point 100; point 110; point 105] (3 - 1) = Some lastPoint /\
      regressionLoop ((ofNat 3 - Fin 1) / Fin 2)
        (sumOf (fun y => y)
           (map (fun p => Math_log toyMath (close p))
              [point 100; point 110; point 105])
         / ofNat 3)
        0
        (map (fun p => Math_log toyMath (close p))
           [point 100; point 110; point 105])
        (Fin 0) (Fin 0)
      = (numerator, denominator) /\
      denominator = Fin d /\ (1 # 4 <= d)%Q /\
      TD.trend td = Math_exp toyMath (numerator / denominator * ofNat 3) /\
      TD.drift td
      = Fin (5 # 100) * (TD.trend td - close lastPoint) / close lastPoint.
Proof.
  eexists. split; [reflexivity |].
  apply (calculateTrendAndDrift_regular toyMath
           [point 100; point 110; point 105] (Fin (5 # 100))).
  reflexivity.
Defined.



(* ================================================================== *)
(** ** generateMarkovRegime *)

Lemma isLabel_neg (g : num) : isLabel g = true -> isLabel (- g) = true.
Proof.
  unfold isLabel. destruct g as [q | | |]; simpl; try discriminate.
  intros H. apply orb_true_iff in H. apply orb_true_iff.
  destruct H as [H | H]; qprops; [right | left]; qprops; lra.
Qed.

Lemma regimeLoop_length (rnd : nat -> num) (switchProb : num) (steps : nat) :
  forall current k,
    List.length (regimeLoop rnd switchProb steps current k) = steps.
Proof.
  induction steps as [| steps IH]; intros current k; [reflexivity |].
  cbn [regimeLoop List.length]. rewrite IH. reflexivity.
Qed.

Lemma regimeLoop_labels (rnd : nat -> num) (switchProb : num) (steps : nat) :
  forall current k,
    isLabel current = true ->
    Forall (fun g => isLabel g = true)
      (regimeLoop rnd switchProb steps current k).
Proof.
  induction steps as [| steps IH]; intros current k H; [constructor |].
  cbn [regimeLoop]. constructor; [exact H |].
  apply IH. destruct (rnd k <? switchProb); [apply isLabel_neg |]; exact H.
Qed.

Lemma generateMarkovRegime_Ok (rnd : nat -> num) (returns : list num)
    (switchProb : num) (regimes : list num) :
  generateMarkovRegime rnd returns switchProb = Ok regimes ->
  returns <> [] /\
  regimes
  = regimeLoop rnd switchProb (List.length returns) (initialRegime returns) 0.
Proof.
  unfold generateMarkovRegime. intros H.
  apply bind_Ok in H. destruct H as (u1 & H1 & H).
  apply bind_Ok in H. destruct H as (u2 & H2 & H).
  apply throwIf_Ok, Nat.eqb_neq in H1.
  split; [intros E; rewrite E in H1; apply H1; reflexivity |].
  injection H as <-. reflexivity.
Qed.

Lemma initialRegime_label (returns : list num) :
  isLabel (initialRegime returns) = true.
Proof. unfold initialRegime. destruct (_ >=? _); reflexivity. Qed.

(** X9.  When [generateMarkovRegime] returns, it returns one label per
    return, every label is +1 or -1, and the first label is +1 exactly
    when the last return is 0 or more. *)
Theorem generateMarkovRegime_labels (rnd : nat -> num) (returns : list num)
    (switchProb : num) (regimes : list num) :
  generateMarkovRegime rnd returns switchProb = Ok regimes ->
  List.length regimes = List.length returns /\
  Forall (fun g => isLabel g = true) regimes /\
  nth_error regimes 0 = Some (initialRegime returns).
Proof.
  intros H. destruct (generateMarkovRegime_Ok _ _ _ _ H) as (Hne & ->).
  split; [apply regimeLoop_length |].
  split; [apply regimeLoop_labels, initialRegime_label |].
  destruct returns as [| r returns]; [congruence | reflexivity].
Qed.

Lemma generateMarkovRegime_labels_witness :
  List.length [Fin 1; Fin (-1); Fin 1; Fin 1; Fin 1]
  = List.length [Fin 1; Fin (-1); Fin 2; Fin 0; Fin 1] /\
  Forall (fun g => isLabel g = true) [Fin 1; Fin (-1); Fin 1; Fin 1; Fin 1] /\
  nth_error [Fin 1; Fin (-1); Fin 1; Fin 1; Fin 1] 0
  = Some (initialRegime [Fin 1; Fin (-1); Fin 2; Fin 0; Fin 1]).
Proof.
  apply (generateMarkovRegime_labels toyRandom
           [Fin 1; Fin (-1); Fin 2; Fin 0; Fin 1] (Fin (1 # 2))).
  vm_compute. reflexivity.
Defined.

Lemma regimeLoop_never_switches (rnd : nat -> num) (steps : nat) :
  (forall k, (rnd k <? Fin 0) = false) ->
  forall current k,
    regimeLoop rnd (Fin 0) steps current k = repeat current steps.
Proof.
  intros Hr. induction steps as [| steps IH]; intros current k; [reflexivity |].
  cbn [regimeLoop repeat]. rewrite Hr, IH. reflexivity.
Qed.

(** X10.  With a switch probability of 0 and draws that are never below 0,
    as those of [Math.random()], the generator never leaves the regime it
    starts in: every label is the initial one. *)
Theorem generateMarkovRegime_zero_probability (rnd : nat -> num)
    (returns : list num) :
  (forall k, (rnd k <? Fin 0) = false) ->
  returns <> [] ->
  generateMarkovRegime rnd returns (Fin 0)
  = Ok (repeat (initialRegime returns) (List.length returns)).
Proof.
  intros Hr Hne. unfold generateMarkovRegime.
  destruct returns as [| r returns]; [congruence |].
  cbn [List.length Nat.eqb throwIf bind].
  change ((Fin 0 <? Fin 0) || (Fin 0 >? Fin 1)) with false.
  cbn [throwIf bind].
  rewrite (regimeLoop_never_switches rnd _ Hr). reflexivity.
Qed.

Lemma generateMarkovRegime_zero_probability_witness :
  (forall k : nat, ((fun _ => Fin (1 # 2)) k <? Fin 0) = false) /\
  generateMarkovRegime (fun _ => Fin (1 # 2)) [Fin 3; Fin (-1)] (Fin 0)
  = Ok (repeat (initialRegime [Fin 3; Fin (-1)])
          (List.length [Fin 3; Fin (-1)])).
Proof.
  split; [reflexivity |].
  apply (generateMarkovRegime_zero_probability (fun _ => Fin (1 # 2))
           [Fin 3; Fin (-1)]).
  - reflexivity.
  - discriminate.
Defined.

(** The two regime probabilities of labels that are +1 or -1 add up
    to 1. *)
Lemma label_probabilities_sum (M : MathLib) (returns regimes : list num) :
  regimes <> [] ->
  List.length returns = List.length regimes ->
  Forall (fun g => isLabel g = true) regimes ->
  exists a,
    analyzeRegime M returns regimes = Ok a /\
    neqb (bullMarketProbability a + bearMarketProbability a) (Fin 1) = true.
Proof.
  intros Hne Hlen Hlab.
  destruct (analyzeRegime_Ok M returns regimes Hlen)
    as (a & Ha & Hbull & Hbear & _).
  exists a. split; [exact Ha |].
  rewrite Hbull, Hbear.
  pose proof (label_counts regimes Hlab) as Hc.
  set (nb := List.length (filter isBull regimes)) in *.
  set (nr := List.length (filter isBear regimes)) in *.
  assert (Hn : (0 < List.length regimes)%nat)
    by (destruct regimes; [congruence | simpl; lia]).
  set (n := List.length regimes) in *.
  assert (Hnz : ~ (inject_Z (Z.of_nat n) == 0)%Q).
  { change 0%Q with (inject_Z 0). rewrite inject_Z_injective. lia. }
  unfold ofNat, ofZ. rewrite !ndiv_Fin by exact Hnz.
  cbn [nadd neqb]. apply Qeq_bool_iff.
  assert (E : (inject_Z (Z.of_nat nb) + inject_Z (Z.of_nat nr)
               == inject_Z (Z.of_nat n))%Q).
  { rewrite <- inject_Z_plus, <- Nat2Z.inj_add, Hc. reflexivity. }
  transitivity ((inject_Z (Z.of_nat nb) + inject_Z (Z.of_nat nr))
                / inject_Z (Z.of_nat n))%Q.
  - field. exact Hnz.
  - rewrite E. field. exact Hnz.
Qed.

(** X11.  The generator and the analyzer fit together: on the labels that
    [generateMarkovRegime] returns for a list of returns, [analyzeRegime]
    does not throw and its two probabilities add up to 1. *)
Theorem analyzeRegime_on_generated (M : MathLib) (rnd : nat -> num)
    (returns : list num) (switchProb : num) (regimes : list num) :
  generateMarkovRegime rnd returns switchProb = Ok regimes ->
  exists a,
    analyzeRegime M returns regimes = Ok a /\
    neqb (bullMarketProbability a + bearMarketProbability a) (Fin 1) = true.
Proof.
  intros H. destruct (generateMarkovRegime_Ok _ _ _ _ H) as (Hne & ->).
  apply label_probabilities_sum.
  - destruct returns; [congruence | discriminate].
  - rewrite regimeLoop_length. reflexivity.
  - apply regimeLoop_labels, initialRegime_label.
Qed.

Lemma analyzeRegime_on_generated_witness :
  exists a,
    analyzeRegime toyMath [Fin 1; Fin (-1); Fin 2; Fin 0; Fin 1]
      [Fin 1; Fin (-1); Fin 1; Fin 1; Fin 1] = Ok a /\
    neqb (bullMarketProbability a + bearMarketProbability a) (Fin 1) = true.
Proof.
  apply (analyzeRegime_on_generated toyMath toyRandom
           [Fin 1; Fin (-1); Fin 2; Fin 0; Fin 1] (Fin (1 # 2))).
  vm_compute. reflexivity.
Defined.

(* ================================================================== *)
(** ** The regime durations *)

(** Labels that the duration loop puts in one run have the same sign. *)
Lemma neqb_isBull (g c : num) : neqb g c = true -> isBull g = isBull c.
Proof.
  unfold isBull, ngt. destruct g as [x | | |], c as [y | | |]; simpl;
    try discriminate; try reflexivity.
  intros H. qprops. apply eq_true_iff_eq. rewrite !Qlt_bool_iff.
  rewrite H. tauto.
Qed.

Lemma list_sum_snoc (l : list nat) (x : nat) :
  list_sum (l ++ [x]) = (list_sum l + x)%nat.
Proof. rewrite list_sum_app. simpl. lia. Qed.

Lemma filter_snoc {A : Type} (f : A -> bool) (l : list A) (x : A) :
  List.length (filter f (l ++ [x]))
  = (List.length (filter f l) + if f x then 1 else 0)%nat.
Proof.
  rewrite filter_app, length_app. simpl. destruct (f x); reflexivity.
Qed.

Lemma durationStep_invariant (seen : list num) (st : DurationState) (g : num) :
  durationInvariant seen st ->
  durationInvariant (seen ++ [g]) (durationStep st g).
Proof.
  unfold durationInvariant. intros (Hb & Hr).
  rewrite !filter_snoc. unfold durationStep.
  destruct (neqb g (currentRegime st)) eqn:E.
  - apply neqb_isBull in E. cbn [currentRegime currentDuration bullDurations
      bearDurations]. rewrite E.
    destruct (isBull (currentRegime st)); simpl; lia.
  - unfold pushDuration. fold (isBull (currentRegime st)).
    destruct (isBull (currentRegime st));
      cbn [currentRegime currentDuration bullDurations bearDurations];
      rewrite ?list_sum_snoc; destruct (isBull g); simpl; lia.
Qed.

Lemma fold_durationStep_invariant (rest : list num) :
  forall seen st,
    durationInvariant seen st ->
    durationInvariant (seen ++ rest) (fold_left durationStep rest st).
Proof.
  induction rest as [| g rest IH]; intros seen st H.
  - rewrite app_nil_r. exact H.
  - cbn [fold_left]. replace (seen ++ g :: rest)%list
      with ((seen ++ [g]) ++ rest)%list
      by (rewrite <- app_assoc; reflexivity).
    apply IH, durationStep_invariant, H.
Qed.

(** X12.  The run lengths that [analyzeRegime] collects cover a non-empty
    array of labels exactly: the bull durations add up to the number of
    labels above 0 and the bear durations to the number of all other
    labels (those below 0, and also 0 and NaN, which the probabilities
    count for neither regime). *)
Theorem regimeDurations_cover (regimes : list num) :
  regimes <> [] ->
  list_sum (bullDurations (regimeDurations regimes))
  = List.length (filter isBull regimes) /\
  list_sum (bearDurations (regimeDurations regimes))
  = List.length (filter (fun g => negb (isBull g)) regimes).
Proof.
  intros Hne. destruct regimes as [| g rest]; [congruence |].
  unfold regimeDurations. cbn [nth_error toNumber tl].
  pose proof (fold_durationStep_invariant rest [g]
                {| currentRegime := g; currentDuration := 1;
                   bullDurations := []; bearDurations := [] |}) as H.
  cbn [app] in H.
  destruct H as (Hb & Hr).
  { unfold durationInvariant.
    cbn [currentRegime currentDuration bullDurations bearDurations filter].
    destruct (isBull g); simpl; lia. }
  set (st := fold_left durationStep rest _) in *. clearbody st.
  unfold pushDuration. fold (isBull (currentRegime st)).
  destruct (isBull (currentRegime st));
    cbn [bullDurations bearDurations]; rewrite ?list_sum_snoc; lia.
Qed.

Lemma regimeDurations_cover_witness :
  list_sum (bullDurations (regimeDurations [Fin 1; Fin 1; Fin (-1); Fin 0]))
  = List.length (filter isBull [Fin 1; Fin 1; Fin (-1); Fin 0]) /\
  list_sum (bearDurations (regimeDurations [Fin 1; Fin 1; Fin (-1); Fin 0]))
  = List.length (filter (fun g => negb (isBull g))
                   [Fin 1; Fin 1; Fin (-1); Fin 0]).
Proof.
  apply (regimeDurations_cover [Fin 1; Fin 1; Fin (-1); Fin 0]).
  discriminate.
Defined.

(** X13.  On empty arrays [analyzeRegime] does not throw: both
    probabilities are NaN (0 / 0), and the duration loop still closes one
    run of length 1, which it files under the bear regime. *)
Theorem analyzeRegime_empty (M : MathLib) :
  exists a,
    analyzeRegime M [] [] = Ok a /\
    bullMarketProbability a = NaN /\ bearMarketProbability a = NaN /\
    bull (regimeDuration a) = Fin 0 /\
    neqb (bear (regimeDuration a)) (Fin 1) = true /\
    bull (regimeVolatility a) = Fin 0 /\ bear (regimeVolatility a) = Fin 0.
Proof. eexists. split; [reflexivity |]. repeat split. Qed.

(* ================================================================== *)
(** ** calculateMaxDrawdown *)

Lemma nle_nlt_trans (a b c : num) :
  (a <=? b) = true -> (b <? c) = true -> (a <=? c) = true.
Proof.
  destruct a, b, c; simpl; try congruence; intros; qprops; lra.
Qed.

Lemma drawdownLoop_nonneg (prices : list num) :
  forall peak drawdown,
    nonneg drawdown -> nonneg (drawdownLoop peak drawdown prices).
Proof.
  induction prices as [| price rest IH]; intros peak drawdown H; [exact H |].
  cbn [drawdownLoop]. apply IH.
  match goal with
  | |- nonneg (if ?c then _ else _) => destruct c eqn:E; [| exact H]
  end.
  unfold nonneg, ngt in *. eapply nle_nlt_trans; eassumption.
Qed.

Lemma fold_max_invariant (P : num -> Prop) (f : list num -> num)
    (paths : list (list num)) :
  (forall path, In path paths -> P (f path)) ->
  forall acc,
    P acc ->
    P (fold_left
         (fun maxDrawdown path =>
            if f path >? maxDrawdown then f path else maxDrawdown)
         paths acc).
Proof.
  induction paths as [| path rest IH]; intros Hf acc Hacc; [exact Hacc |].
  cbn [fold_left]. apply IH.
  - intros q Hq. apply Hf. right. exact Hq.
  - destruct (f path >? acc); [apply Hf; left; reflexivity | exact Hacc].
Qed.

(** One step of the drawdown loop on positiveNum prices. *)
Lemma drawdown_step_unit (peak price drawdown : num) :
  positiveNum peak -> positiveNum price -> unitFraction drawdown ->
  positiveNum (if price >? peak then price else peak) /\
  unitFraction
    (if ((if price >? peak then price else peak) - price)
        / (if price >? peak then price else peak) >? drawdown
     then ((if price >? peak then price else peak) - price)
          / (if price >? peak then price else peak)
     else drawdown).
Proof.
  unfold positiveNum, ngt. intros Hpk Hpr Hdd.
  destruct Hdd as (dq & -> & Hd0 & Hd1).
  assert (Hdd : unitFraction (Fin dq)) by (exists dq; auto).
  destruct (peak <? price) eqn:E.
  - split; [exact Hpr |].
    destruct price as [pr | | |]; simpl in Hpr; try discriminate.
    + qprops. cbn [nsub nadd nneg]. rewrite ndiv_Fin by lra.
      match goal with
      | |- unitFraction (if ?c then _ else _) => destruct c; [| exact Hdd]
      end.
      eexists. split; [reflexivity |].
      assert (Ez : ((pr + - pr) / pr == 0)%Q) by (field; lra).
      rewrite Ez. lra.
    + simpl. exact Hdd.
  - split; [exact Hpk |].
    destruct peak as [pk | | |]; simpl in Hpk; try discriminate.
    + destruct price as [pr | | |]; simpl in Hpr, E; try discriminate.
      qprops. cbn [nsub nadd nneg]. rewrite ndiv_Fin by lra.
      match goal with
      | |- unitFraction (if ?c then _ else _) => destruct c; [| exact Hdd]
      end.
      eexists. split; [reflexivity |]. split.
      * apply Qle_shift_div_l; lra.
      * apply Qlt_shift_div_r; lra.
    + destruct price as [pr | | |]; simpl; exact Hdd.
Qed.

Lemma drawdownLoop_unit (prices : list num) :
  forall peak drawdown,
    positiveNum peak -> Forall positiveNum prices -> unitFraction drawdown ->
    unitFraction (drawdownLoop peak drawdown prices).
Proof.
  induction prices as [| price rest IH]; intros peak drawdown Hpk Hall Hdd;
    [exact Hdd |].
  inversion Hall as [| ? ? Hpr Hrest]; subst.
  cbn [drawdownLoop].
  destruct (drawdown_step_unit peak price drawdown Hpk Hpr Hdd) as (H1 & H2).
  apply IH; assumption.
Qed.

Lemma unitFraction_zero : unitFraction (Fin 0).
Proof. exists 0%Q. split; [reflexivity | lra]. Qed.

Lemma calculateMaxDrawdown_range_positive (paths : list (list num))
    (initialPrice : num) :
  positiveNum initialPrice -> Forall (Forall positiveNum) paths ->
  unitFraction (calculateMaxDrawdown paths initialPrice).
Proof.
  intros Hp Hall. unfold calculateMaxDrawdown.
  apply (fold_max_invariant unitFraction
           (fun path => drawdownLoop initialPrice (Fin 0) path)).
  - intros path Hin.
    apply drawdownLoop_unit; [exact Hp | | apply unitFraction_zero].
    rewrite Forall_forall in Hall. auto.
  - apply unitFraction_zero.
Qed.



(* ================================================================== *)
(** ** runStressTest *)

Lemma filter_length_bound {A : Type} (f : A -> bool) (l : list A) :
  (List.length (filter f l) <= List.length l)%nat.
Proof.
  induction l as [| x l IH]; [reflexivity |].
  cbn [filter]. destruct (f x); cbn [List.length]; lia.
Qed.

Lemma ratio_probability (c n : nat) :
  (c <= n)%nat -> (0 < n)%nat -> probability (ofNat c / ofNat n).
Proof.
  intros Hc Hn. unfold ofNat, ofZ.
  assert (Hpos : (0 < inject_Z (Z.of_nat n))%Q).
  { change 0%Q with (inject_Z 0). rewrite <- Zlt_Qlt. lia. }
  rewrite ndiv_Fin by lra.
  eexists. split; [reflexivity |].
  assert (H0 : (0 <= inject_Z (Z.of_nat c))%Q).
  { change 0%Q with (inject_Z 0). rewrite <- Zle_Qle. lia. }
  assert (H1 : (inject_Z (Z.of_nat c) <= inject_Z (Z.of_nat n))%Q).
  { rewrite <- Zle_Qle. lia. }
  split.
  - apply Qle_shift_div_l; lra.
  - apply Qle_shift_div_r; lra.
Qed.

Lemma floor_positive (x : num) : (MIN_PRICE <=? x) = true -> positiveNum x.
Proof.
  unfold positiveNum, MIN_PRICE. destruct x as [q | | |]; simpl;
    try discriminate; try reflexivity.
  intros H. qprops. lra.
Qed.

(** Every price of every path of a result is above 0. *)
Lemma result_paths_positive (M : MathLib) (rnd : nat -> num) (p0 : num)
    (params : AnalyticsParams) (v0 dr : num) (r : AnalyticsResult) :
  runMonteCarloSimulation M rnd p0 params v0 dr = Ok r ->
  positiveNum p0 /\ Forall (Forall positiveNum) (paths r) /\
  (100 <= List.length (paths r))%nat.
Proof.
  intros H.
  destruct (result_paths_shape _ _ _ _ _ _ _ H) as (Hlen & Hall & Hp).
  destruct (runMonteCarloSimulation_Ok _ _ _ _ _ _ _ H) as (Hn & _).
  split; [exact Hp |]. split; [| lia].
  eapply Forall_impl; [| exact Hall].
  intros path (_ & Hd & Htl).
  destruct path as [| x path]; [constructor |].
  injection Hd as ->. constructor; [exact Hp |].
  eapply Forall_impl; [| exact Htl]. intros y. apply floor_positive.
Qed.



(** X16.  A scenario whose shock makes the stressed volatility 0 or less
    aborts the whole stress test: [runStressTest] throws and returns no
    result, not even for the scenarios before it. *)
Theorem runStressTest_aborts (M : MathLib) (rnd : nat -> num)
    (initialPrice : num) (params : AnalyticsParams)
    (initialVolatility dr : num) (scenarios : list StressTestScenario) :
  Exists (fun sc =>
            (initialVolatility * volatilityShock sc <=? Fin 0) = true)
    scenarios ->
  forall k,
    isOk (runStressTest M rnd k initialPrice params initialVolatility dr
            scenarios) = false.
Proof.
  induction 1 as [sc rest Hbad | sc rest Hex IH]; intros k;
    cbn [runStressTest];
    match goal with
    | |- context [runMonteCarloSimulation ?M' ?r' ?p' ?q' ?v' ?d'] =>
        destruct (runMonteCarloSimulation M' r' p' q' v' d') as [r | e] eqn:Er
    end; cbn [bind]; try reflexivity.
  - destruct (runMonteCarloSimulation_Ok _ _ _ _ _ _ _ Er)
      as (_ & _ & _ & Hv & _).
    congruence.
  - specialize (IH (k + drawsOf params)%nat).
    destruct (runStressTest M rnd (k + drawsOf params) initialPrice params
                initialVolatility dr rest); [discriminate | reflexivity].
Qed.

Lemma runStressTest_aborts_witness :
  Exists (fun sc => (Fin (2 # 10) * volatilityShock sc <=? Fin 0) = true)
    [{| name := "calm"; volatilityShock := Fin 1; driftShock := Fin 0;
        correlationShock := Fin 0 |};
     {| name := "frozen"; volatilityShock := Fin 0; driftShock := Fin 0;
        correlationShock := Fin 0 |}] /\
  isOk (runStressTest toyMath toyRandom 0 (Fin 100) testParams (Fin (2 # 10))
          (Fin 0)
          [{| name := "calm"; volatilityShock := Fin 1; driftShock := Fin 0;
              correlationShock := Fin 0 |};
           {| name := "frozen"; volatilityShock := Fin 0; driftShock := Fin 0;
              correlationShock := Fin 0 |}]) = false.
Proof.
  assert (H : Exists
                (fun sc =>
                   (Fin (2 # 10) * volatilityShock sc <=? Fin 0) = true)
                [{| name := "calm"; volatilityShock := Fin 1;
                    driftShock := Fin 0; correlationShock := Fin 0 |};
                 {| name := "frozen"; volatilityShock := Fin 0;
                    driftShock := Fin 0; correlationShock := Fin 0 |}])
    by (right; left; reflexivity).
  split; [exact H |].
  exact (runStressTest_aborts toyMath toyRandom (Fin 100) testParams
           (Fin (2 # 10)) (Fin 0) _ H 0%nat).
Defined.

(* ================================================================== *)
(** ** calculatePerformanceMetrics *)

Lemma ndiv_NaN_r (a : num) : a / NaN = NaN.
Proof. destruct a; reflexivity. Qed.

Lemma nmul_NaN_r (a : num) : a * NaN = NaN.
Proof. destruct a; reflexivity. Qed.

Lemma calculateReturns_Ok_length (M : MathLib) (prices : list PricePoint)
    (returns : list num) :
  calculateReturns M prices = Ok returns -> (2 <= List.length prices)%nat.
Proof.
  unfold calculateReturns. intros H. inv_bind.
  apply Nat.ltb_ge in Ha. exact Ha.
Qed.

Section PerformanceFacts.
Variable M : MathLib.

(** X17.  [calculatePerformanceMetrics] fails exactly when
    [calculateReturns] fails on the same prices (fewer than two prices, or
    a close other than the last that is not above 0); a benchmark never
    makes it fail. *)
Theorem calculatePerformanceMetrics_fails_iff (prices : list PricePoint)
    (benchmarkReturns : option (list num)) :
  isOk (calculatePerformanceMetrics M prices benchmarkReturns)
  = isOk (calculateReturns M prices).
Proof.
  unfold calculatePerformanceMetrics.
  destruct (calculateReturns M prices) as [returns | e] eqn:E; [| reflexivity].
  cbn [bind]. apply calculateReturns_Ok_length in E.
  destruct prices as [| first rest]; [simpl in E; lia |].
  cbn [calculateMaxDrawdownFromPrices bind].
  destruct benchmarkReturns as [bench |]; [| reflexivity].
  destruct (Nat.eqb (List.length bench) (List.length returns)); reflexivity.
Qed.

(** X18.  A benchmark whose length differs from the number of returns is
    ignored without an error: the call gives what the call without a
    benchmark gives. *)
Theorem calculatePerformanceMetrics_mismatch (prices : list PricePoint)
    (bench : list num) :
  List.length bench <> (List.length prices - 1)%nat ->
  calculatePerformanceMetrics M prices (Some bench)
  = calculatePerformanceMetrics M prices None.
Proof.
  intros Hlen. unfold calculatePerformanceMetrics.
  destruct (calculateReturns M prices) as [returns | e] eqn:E; [| reflexivity].
  cbn [bind]. apply calculateReturns_length in E.
  destruct (calculateMaxDrawdownFromPrices prices); [| reflexivity].
  cbn [bind].
  replace (Nat.eqb (List.length bench) (List.length returns)) with false
    by (symmetry; apply Nat.eqb_neq; lia).
  reflexivity.
Qed.

(** X19.  With exactly two prices there is one return, the sample standard
    deviation divides 0 by 0, and the Sharpe ratio and the Sortino ratio
    of the result are NaN. *)
Theorem calculatePerformanceMetrics_two_prices (prices : list PricePoint)
    (benchmarkReturns : option (list num)) (m : PerformanceMetrics.t) :
  List.length prices = 2%nat ->
  calculatePerformanceMetrics M prices benchmarkReturns = Ok m ->
  PerformanceMetrics.sharpeRatio m = NaN /\
  PerformanceMetrics.sortinoRatio m = NaN.
Proof.
  intros Hlen H. unfold calculatePerformanceMetrics in H.
  apply bind_Ok in H. destruct H as (returns & Hr & H).
  apply bind_Ok in H. destruct H as (dd & Hd & H).
  apply calculateReturns_length in Hr. rewrite Hlen in Hr.
  destruct returns as [| r [| r' returns]]; try discriminate.
  assert (Hvol :
            Math_sqrt M
              (sumOf (fun x => Math_pow (x - sumOf (fun r => r) [r]
                                               / ofNat (List.length [r])) 2)
                 [r]
               / (ofNat (List.length [r]) - Fin 1)) = NaN)
    by apply (regimeStdDev_single M r).
  assert (Hdown :
            Math_sqrt M
              (sumOf (fun x => Math_pow (x - sumOf (fun r => r) [r]
                                               / ofNat (List.length [r])) 2)
                 (filter (fun x => x <? sumOf (fun r => r) [r]
                                        / ofNat (List.length [r])) [r])
               / ofNat (List.length
                          (filter (fun x => x <? sumOf (fun r => r) [r]
                                                 / ofNat (List.length [r]))
                             [r]))) = NaN).
  { assert (Ef : filter (fun x => x <? sumOf (fun r => r) [r]
                                       / ofNat (List.length [r])) [r] = []).
    { cbn [filter]. unfold sumOf, ofNat, ofZ. cbn [fold_left List.length].
      destruct r as [q | | |]; try reflexivity.
      cbn [nadd]. rewrite ndiv_Fin by discriminate. cbn [nlt].
      replace (Qlt_bool q ((0 + q) / inject_Z (Z.of_nat 1))) with false;
        [reflexivity |].
      symmetry. apply Qlt_bool_false.
      change (inject_Z (Z.of_nat 1)) with 1%Q.
      assert (E : ((0 + q) / 1 == q)%Q) by field. rewrite E. lra. }
    rewrite Ef. reflexivity. }
  rewrite Hvol, Hdown in H.
  rewrite !nmul_NaN_l, !ndiv_NaN_r in H.
  destruct benchmarkReturns as [bench |];
    [destruct (Nat.eqb (List.length bench) (List.length [r])) |];
    injection H as <-; split; reflexivity.
Qed.
End PerformanceFacts.

Lemma calculatePerformanceMetrics_two_prices_witness :
  exists m,
    calculatePerformanceMetrics toyMath [point 100; point 110] None = Ok m /\
    PerformanceMetrics.sharpeRatio m = NaN /\
    PerformanceMetrics.sortinoRatio m = NaN.
Proof.
  eexists. split; [reflexivity |].
  apply (calculatePerformanceMetrics_two_prices toyMath
           [point 100; point 110] None); reflexivity.
Defined.

Lemma calculatePerformanceMetrics_mismatch_witness :
  List.length [Fin (1 # 100)] <> (List.length [point 100; point 110; point 105] - 1)%nat /\
  calculatePerformanceMetrics toyMath [point 100; point 110; point 105]
    (Some [Fin (1 # 100)])
  = calculatePerformanceMetrics toyMath [point 100; point 110; point 105] None.
Proof.
  assert (H : List.length [Fin (1 # 100)]
              <> (List.length [point 100; point 110; point 105] - 1)%nat)
    by discriminate.
  split; [exact H |].
  exact (calculatePerformanceMetrics_mismatch toyMath
           [point 100; point 110; point 105] [Fin (1 # 100)] H).
Defined.

(** On closes that never fall the drawdown loop leaves the drawdown at 0. *)
Lemma drawdownLoop_rising (prices : list num) :
  forall peak,
    positiveNum peak -> Forall positiveNum prices ->
    Sorted nleP (peak :: prices) ->
    drawdownLoop peak (Fin 0) prices = Fin 0.
Proof.
  induction prices as [| price rest IH]; intros peak Hpk Hall Hs;
    [reflexivity |].
  inversion Hall as [| ? ? Hpr Hrest]; subst.
  inversion Hs as [| ? ? Hs' Hhd]; subst.
  inversion Hhd as [| ? ? Hle]; subst.
  cbn [drawdownLoop].
  assert (E : (if ((if price >? peak then price else peak) - price)
                   / (if price >? peak then price else peak) >? Fin 0
               then ((if price >? peak then price else peak) - price)
                    / (if price >? peak then price else peak)
               else Fin 0) = Fin 0
              /\ (if price >? peak then price else peak) = price
                 \/ exists a b, peak = Fin a /\ price = Fin b /\ (a == b)%Q
                               /\ (if ((if price >? peak then price else peak)
                                       - price)
                                      / (if price >? peak then price else peak)
                                      >? Fin 0
                                   then ((if price >? peak then price else peak)
                                         - price)
                                        / (if price >? peak then price else peak)
                                   else Fin 0) = Fin 0
                               /\ (if price >? peak then price else peak) = peak).
  { unfold positiveNum, nleP, ngt in *.
    destruct peak as [a | | |], price as [b | | |]; simpl in Hpk, Hpr, Hle;
      try discriminate; qprops.
    - cbn [nlt]. destruct (Qlt_bool a b) eqn:E.
      + left. split; [| reflexivity]. qprops.
        cbn [nsub nadd nneg]. rewrite ndiv_Fin by lra. cbn [nlt].
        replace (Qlt_bool 0 ((b + - b) / b)) with false; [reflexivity |].
        symmetry. qprops.
        assert (Ez : ((b + - b) / b == 0)%Q) by (field; lra).
        rewrite Ez. lra.
      + right. exists a, b. qprops.
        assert (Eab : (a == b)%Q) by lra.
        repeat split; auto.
        cbn [nsub nadd nneg]. rewrite ndiv_Fin by lra. cbn [nlt].
        replace (Qlt_bool 0 ((a + - b) / a)) with false; [reflexivity |].
        symmetry. qprops.
        assert (Ez : ((a + - b) / a == 0)%Q) by (rewrite Eab; field; lra).
        rewrite Ez. lra.
    - left. split; reflexivity.
    - left. split; reflexivity. }
  destruct E as [(E1 & E2) | (a & b & -> & -> & Eab & E1 & E2)].
  - rewrite E1, E2. apply IH; [exact Hpr | exact Hrest | exact Hs'].
  - rewrite E1, E2. apply IH; [exact Hpk | exact Hrest |].
    inversion Hs' as [| ? ? Hs'' Hhd']; subst.
    constructor; [exact Hs'' |].
    inversion Hhd' as [| c ? Hbc]; subst; constructor.
    unfold nleP in *. destruct c as [c | | |]; simpl in *;
      try discriminate; try reflexivity.
    qprops. lra.
Qed.

Lemma ndiv_zero_not_finite (a : num) (q : Q) :
  a / Math_abs (Fin 0) <> Fin q.
Proof.
  destruct a as [x | | |]; cbn [Math_abs ndiv]; try discriminate.
  change (Qeq_bool (Qabs 0) 0) with true. cbv iota.
  unfold infTimes. destruct (Qeq_bool x 0); [discriminate |].
  destruct (Bool.eqb true (Qlt_bool 0 x)); discriminate.
Qed.

Lemma calculateMaxDrawdownFromPrices_Ok (prices : list PricePoint) (dd : num) :
  calculateMaxDrawdownFromPrices prices = Ok dd ->
  exists first rest,
    prices = first :: rest /\
    dd = drawdownLoop (close first) (Fin 0) (map close prices).
Proof.
  destruct prices as [| first rest]; [discriminate |].
  intros H. exists first, rest. split; [reflexivity |].
  unfold calculateMaxDrawdownFromPrices in H. congruence.
Qed.

Section PerformanceDrawdown.
Variable M : MathLib.


(** X21.  On closes above 0 that never fall from one point to the next the
    maximum drawdown is exactly 0, and the Calmar ratio, a division by
    that 0, is not a finite number: it is Infinity, -Infinity or NaN. *)
Theorem calculatePerformanceMetrics_no_decline
    (prices : list PricePoint) (benchmarkReturns : option (list num))
    (m : PerformanceMetrics.t) :
  Forall positiveNum (map close prices) ->
  Sorted nleP (map close prices) ->
  calculatePerformanceMetrics M prices benchmarkReturns = Ok m ->
  PerformanceMetrics.maxDrawdown m = Fin 0 /\
  forall q, PerformanceMetrics.calmarRatio m <> Fin q.
Proof.
  intros Hall Hs H. unfold calculatePerformanceMetrics in H.
  apply bind_Ok in H. destruct H as (returns & Hr & H).
  apply bind_Ok in H. destruct H as (dd & Hd & H).
  assert (Hdd : dd = Fin 0).
  { destruct (calculateMaxDrawdownFromPrices_Ok _ _ Hd)
      as (first & rest & Ep & ->).
    apply drawdownLoop_rising; [| exact Hall |].
    - rewrite Ep in Hall. inversion Hall; assumption.
    - rewrite Ep in *. cbn [map] in *. constructor; [exact Hs |]. constructor.
      inversion Hall as [| ? ? Hp _]; subst.
      unfold nleP, positiveNum in *.
      destruct (close first) as [c | | |]; simpl in *;
        try discriminate; try reflexivity.
      qprops. lra. }
  subst dd.
  destruct benchmarkReturns as [bench |];
    [destruct (Nat.eqb (List.length bench) (List.length returns)) |];
    injection H as <-; cbn [PerformanceMetrics.maxDrawdown
                            PerformanceMetrics.calmarRatio];
    (split; [reflexivity | intros q; apply ndiv_zero_not_finite]).
Qed.
End PerformanceDrawdown.


Lemma calculatePerformanceMetrics_no_decline_witness :
  exists m,
    Forall positiveNum (map close [point 100; point 100; point 110]) /\
    Sorted nleP (map close [point 100; point 100; point 110]) /\
    calculatePerformanceMetrics toyMath [point 100; point 100; point 110] None
    = Ok m /\
    PerformanceMetrics.maxDrawdown m = Fin 0 /\
    forall q, PerformanceMetrics.calmarRatio m <> Fin q.
Proof.
  assert (Hall : Forall positiveNum
                   (map close [point 100; point 100; point 110]))
    by (repeat constructor).
  assert (Hs : Sorted nleP (map close [point 100; point 100; point 110]))
    by (repeat constructor).
  eexists. split; [exact Hall |]. split; [exact Hs |]. split; [reflexivity |].
  exact (calculatePerformanceMetrics_no_decline toyMath
           [point 100; point 100; point 110] None _ Hall Hs eq_refl).
Defined.

(* ================================================================== *)
(** ** generateSyntheticWalk and testPipeline *)

Lemma syntheticLoop_length (M : MathLib) (rnd : nat -> num)
    (meanReturn volatility : num) (remaining : nat) :
  forall i currentPrice k,
    List.length
      (syntheticLoop M rnd meanReturn volatility remaining i currentPrice k)
    = remaining.
Proof.
  induction remaining as [| n IH]; intros i currentPrice k; [reflexivity |].
  cbn [syntheticLoop].
  destruct (Nat.ltb 0 i); cbn [List.length]; rewrite IH; reflexivity.
Qed.

Lemma Exists_removelast {A : Type} (P : A -> Prop) (l : list A) :
  Exists P (removelast l) -> Exists P l.
Proof.
  induction l as [| x l IH]; [intros H; exact H |].
  destruct l as [| y l]; [intros H; inversion H |].
  change (removelast (x :: y :: l)) with (x :: removelast (y :: l)).
  intros H. apply Exists_cons in H. destruct H as [H | H].
  - left. exact H.
  - right. apply IH. exact H.
Qed.

Lemma guards_pass (prices : list PricePoint) :
  Forall (fun p => (close p <=? Fin 0) = false) prices ->
  ~ Exists (fun p => (close p <=? Fin 0) = true) prices.
Proof.
  intros Hall Hex. apply Exists_exists in Hex. destruct Hex as (p & Hin & Hp).
  rewrite Forall_forall in Hall. rewrite (Hall p Hin) in Hp. discriminate.
Qed.

Lemma isOk_false_Throw {A : Type} (x : result A) (e : exn) :
  x = Throw e -> isOk x = false.
Proof. intros ->. reflexivity. Qed.

(** The parameters of [testPipeline] do not pass [validateParams]. *)
Lemma runMonteCarloSimulation_pipelineParams (M : MathLib)
    (rnd : nat -> num) (p v d : num) :
  runMonteCarloSimulation M rnd p pipelineParams v d
  = Throw (Error "Number of paths must be between 100 and 10000").
Proof. reflexivity. Qed.

(** X22.  [testPipeline] never reports success, whatever the library and
    the random numbers are: its parameters ask for 10 paths, which
    [validateParams] refuses, so the simulation throws before any check
    is made and the report holds exactly one error.  When no close of the
    synthetic walk is 0 or less, the stages before the simulation all
    return and that error is the message about the number of paths. *)
Theorem testPipeline_never_succeeds (M : MathLib) (rnd : nat -> num) :
  success (testPipeline M rnd) = false /\
  (exists message, errors (testPipeline M rnd) = [message]) /\
  (Forall (fun p => (close p <=? Fin 0) = false)
     (generateSyntheticWalk M rnd 100 (Fin (1 # 1000)) (Fin (1 # 100))) ->
   errors (testPipeline M rnd)
   = ["Number of paths must be between 100 and 10000"]).
Proof.
  assert (Hlen : List.length
                   (generateSyntheticWalk M rnd 100 (Fin (1 # 1000))
                      (Fin (1 # 100))) = 100%nat)
    by apply syntheticLoop_length.
  assert (H : (exists message, pipelineErrors M rnd = [message]) /\
              (Forall (fun p => (close p <=? Fin 0) = false)
                 (generateSyntheticWalk M rnd 100 (Fin (1 # 1000))
                    (Fin (1 # 100))) ->
               pipelineErrors M rnd
               = ["Number of paths must be between 100 and 10000"])).
  { unfold pipelineErrors. cbv zeta.
    set (prices := generateSyntheticWalk M rnd 100 (Fin (1 # 1000))
                     (Fin (1 # 100))) in *.
    clearbody prices.
    destruct (calculateReturns M prices) as [returns | e] eqn:Er.
    2:{ split; [eauto |]. intros Hall. exfalso.
        apply isOk_false_Throw, calculateReturns_throws_iff in Er.
        destruct Er as [Er | Er]; [lia |].
        apply Exists_removelast in Er. exact (guards_pass _ Hall Er). }
    pose proof (calculateReturns_length M _ _ Er) as Hr. rewrite Hlen in Hr.
    assert (Hne : returns <> []) by (intros E; rewrite E in Hr; discriminate).
    destruct (calculateGARCHVolatility M returns (Fin (1 # 10)) (Fin (8 # 10)))
      as [volatilities | e] eqn:Eg.
    2:{ split; [eauto |]. intros _. exfalso.
        destruct (garch_returns_normally M returns (Fin (1 # 10))
                    (Fin (8 # 10)) Hne eq_refl) as (v & Ev).
        congruence. }
    destruct (calculateTrendAndDrift M prices (Fin (5 # 100)))
      as [td | e] eqn:Et.
    2:{ split; [eauto |]. intros Hall. exfalso.
        apply isOk_false_Throw, calculateTrendAndDrift_isOk_false in Et.
        destruct Et as [Et | [Et | Et]];
          [lia | discriminate | exact (guards_pass _ Hall Et)]. }
    destruct (generateMarkovRegime _ returns (Fin (5 # 100)))
      as [regimes | e] eqn:Em.
    2:{ split; [eauto |]. intros _. exfalso.
        unfold generateMarkovRegime in Em.
        destruct returns as [| r returns]; [congruence |]. discriminate. }
    destruct (nth_error prices (List.length prices - 1))
      as [lastPoint |] eqn:El.
    2:{ split; [eauto |]. intros _. exfalso.
        apply nth_error_None in El. lia. }
    rewrite runMonteCarloSimulation_pipelineParams.
    split; [eauto | reflexivity]. }
  destruct H as ((message & Hm) & Hpos).
  unfold testPipeline. cbn [success errors]. rewrite Hm.
  split; [reflexivity |]. split; [eauto |].
  intros Hall. rewrite <- Hm. apply Hpos. exact Hall.
Qed.

Lemma testPipeline_never_succeeds_witness :
  Forall (fun p => (close p <=? Fin 0) = false)
    (generateSyntheticWalk
       {| sqrt_fin := fun _ => Fin 1; exp_fin := fun _ => Fin 1;
          log_fin := fun _ => Fin 0; cos_fin := fun _ => Fin 1 |}
       toyRandom 100 (Fin (1 # 1000)) (Fin (1 # 100))) /\
  success (testPipeline
             {| sqrt_fin := fun _ => Fin 1; exp_fin := fun _ => Fin 1;
                log_fin := fun _ => Fin 0; cos_fin := fun _ => Fin 1 |}
             toyRandom) = false /\
  errors (testPipeline
            {| sqrt_fin := fun _ => Fin 1; exp_fin := fun _ => Fin 1;
               log_fin := fun _ => Fin 0; cos_fin := fun _ => Fin 1 |}
            toyRandom)
  = ["Number of paths must be between 100 and 10000"].
Proof.
  assert (Hall : Forall (fun p => (close p <=? Fin 0) = false)
                   (generateSyntheticWalk
                      {| sqrt_fin := fun _ => Fin 1;
                         exp_fin := fun _ => Fin 1;
                         log_fin := fun _ => Fin 0;
                         cos_fin := fun _ => Fin 1 |}
                      toyRandom 100 (Fin (1 # 1000)) (Fin (1 # 100)))).
  { assert (Hb : forallb (fun p => negb (close p <=? Fin 0))
                   (generateSyntheticWalk
                      {| sqrt_fin := fun _ => Fin 1;
                         exp_fin := fun _ => Fin 1;
                         log_fin := fun _ => Fin 0;
                         cos_fin := fun _ => Fin 1 |}
                      toyRandom 100 (Fin (1 # 1000)) (Fin (1 # 100)))
                 = true)
      by (vm_compute; reflexivity).
    rewrite forallb_forall in Hb. apply Forall_forall. intros p Hin.
    apply Hb in Hin. apply negb_true_iff in Hin. exact Hin. }
  split; [exact Hall |].
  destruct (testPipeline_never_succeeds
              {| sqrt_fin := fun _ => Fin 1; exp_fin := fun _ => Fin 1;
                 log_fin := fun _ => Fin 0; cos_fin := fun _ => Fin 1 |}
              toyRandom) as (Hs & _ & He).
  split; [exact Hs | exact (He Hall)].
Defined.

Lemma bar_bounds (c u1 u2 : Q) :
  (0 <= c)%Q ->
  nleP (Fin c * (Fin 1 - Math_abs (Fin u2) * Fin (1 # 1000))) (Fin c) /\
  nleP (Fin c) (Fin c * (Fin 1 + Math_abs (Fin u1) * Fin (1 # 1000))).
Proof.
  intros Hc. unfold nleP. cbn [Math_abs nmul nsub nadd nneg nle].
  pose proof (Qabs_nonneg u1) as H1. pose proof (Qabs_nonneg u2) as H2.
  set (a1 := Qabs u1) in *. set (a2 := Qabs u2) in *. clearbody a1 a2.
  pose proof (Qmult_le_0_compat _ _ Hc H1) as P1.
  pose proof (Qmult_le_0_compat _ _ Hc H2) as P2.
  split; qprops.
  - assert (E : (c * (1 + - (a2 * (1 # 1000))) == c - (c * a2) * (1 # 1000))%Q)
      by ring.
    rewrite E. lra.
  - assert (E : (c * (1 + a1 * (1 # 1000)) == c + (c * a1) * (1 # 1000))%Q)
      by ring.
    rewrite E. lra.
Qed.

Lemma syntheticLoop_bars (M : MathLib) (rnd : nat -> num)
    (meanReturn volatility : num) (remaining : nat) :
  (forall k, isFinite (rnd k) = true) ->
  forall i currentPrice k,
    Forall (fun p =>
              nonneg (close p) -> isFinite (close p) = true ->
              nleP (low p) (close p) /\ nleP (close p) (high p))
      (syntheticLoop M rnd meanReturn volatility remaining i currentPrice k).
Proof.
  intros Hrnd.
  assert (Hpoint : forall (cp : num) (k : nat) (d : Z) (o v : num),
             nonneg cp -> isFinite cp = true ->
             nleP (cp * (Fin 1 - Math_abs (rnd (k + 2)%nat) * Fin (1 # 1000)))
               cp /\
             nleP cp
               (cp * (Fin 1 + Math_abs (rnd (k + 1)%nat) * Fin (1 # 1000)))).
  { intros cp k d o v Hnn Hfin.
    pose proof (Hrnd (k + 1)%nat) as F1. pose proof (Hrnd (k + 2)%nat) as F2.
    destruct cp as [c | | |]; try discriminate.
    destruct (rnd (k + 1)%nat) as [u1 | | |]; try discriminate.
    destruct (rnd (k + 2)%nat) as [u2 | | |]; try discriminate.
    apply bar_bounds. unfold nonneg in Hnn. simpl in Hnn. qprops. exact Hnn. }
  induction remaining as [| n IH]; intros i currentPrice k; [constructor |].
  cbn [syntheticLoop].
  destruct (Nat.ltb 0 i); (constructor; [| apply IH]);
    cbn [close low high]; intros Hnn Hfin;
    apply (Hpoint _ _ 0%Z NaN NaN Hnn Hfin).
Qed.

(** X23.  [generateSyntheticWalk] returns [numPoints] points and the first
    close is 100 whatever the random numbers are; and when [Math.random()]
    gives finite numbers, every point with a finite close of 0 or more has
    [low <= close <= high]. *)
Theorem generateSyntheticWalk_bars (M : MathLib) (rnd : nat -> num)
    (numPoints : nat) (meanReturn volatility : num) :
  List.length (generateSyntheticWalk M rnd numPoints meanReturn volatility)
  = numPoints /\
  (numPoints <> 0%nat ->
   option_map close
     (hd_error (generateSyntheticWalk M rnd numPoints meanReturn volatility))
   = Some (Fin 100)) /\
  ((forall k, isFinite (rnd k) = true) ->
   Forall (fun p =>
             nonneg (close p) -> isFinite (close p) = true ->
             nleP (low p) (close p) /\ nleP (close p) (high p))
     (generateSyntheticWalk M rnd numPoints meanReturn volatility)).
Proof.
  unfold generateSyntheticWalk. split; [| split].
  - apply syntheticLoop_length.
  - destruct numPoints as [| n]; [congruence | reflexivity].
  - intros Hrnd. apply syntheticLoop_bars. exact Hrnd.
Qed.

Lemma generateSyntheticWalk_bars_witness :
  (forall k, isFinite (toyRandom k) = true) /\
  3%nat <> 0%nat /\
  List.length
    (generateSyntheticWalk toyMath toyRandom 3 (Fin (1 # 1000))
       (Fin (1 # 100))) = 3%nat /\
  option_map close
    (hd_error (generateSyntheticWalk toyMath toyRandom 3 (Fin (1 # 1000))
                 (Fin (1 # 100))))
  = Some (Fin 100) /\
  Forall (fun p =>
            nonneg (close p) -> isFinite (close p) = true ->
            nleP (low p) (close p) /\ nleP (close p) (high p))
    (generateSyntheticWalk toyMath toyRandom 3 (Fin (1 # 1000))
       (Fin (1 # 100))).
Proof.
  assert (H : forall k, isFinite (toyRandom k) = true)
    by (intros k; reflexivity).
  assert (H3 : 3%nat <> 0%nat) by discriminate.
  split; [exact H |]. split; [exact H3 |].
  destruct (generateSyntheticWalk_bars toyMath toyRandom 3 (Fin (1 # 1000))
              (Fin (1 # 100))) as (Hlen & Hhd & Hbars).
  split; [exact Hlen |]. split; [exact (Hhd H3) | exact (Hbars H)].
Defined.

(* ================================================================== *)
(** ** The probabilities and the order of the risk measures *)

Lemma calculateStatistics_probabilities (ps : list (list num)) (p0 : num)
    (r : AnalyticsResult) :
  calculateStatistics ps p0 = Ok r ->
  upside20 (probabilities r)
  = ofNat (List.length
             (filter (fun price => price >=? p0 * Fin (12 # 10))
                (finalPrices ps)))
    / ofNat (List.length ps) /\
  downside10 (probabilities r)
  = ofNat (List.length
             (filter (fun price => price <=? p0 * Fin (9 # 10))
                (finalPrices ps)))
    / ofNat (List.length ps).
Proof.
  unfold calculateStatistics. intros H.
  apply bind_Ok in H. destruct H as (h & _ & H).
  injection H as <-. split; reflexivity.
Qed.

(** The terminal prices of a result are finite. *)
Lemma result_finals_finite (M : MathLib) (rnd : nat -> num) (p0 : num)
    (params : AnalyticsParams) (v0 dr : num) (r : AnalyticsResult) :
  runMonteCarloSimulation M rnd p0 params v0 dr = Ok r ->
  Forall (fun p => exists q, p = Fin q) (finalPrices (paths r)) /\
  Forall (fun p => exists q, p = Fin q) (sortedPrices (paths r)).
Proof.
  intros H.
  destruct (result_sorted _ _ _ _ _ _ _ H) as (_ & Hperm & _ & _ & Hlen & Hn).
  destruct (runMonteCarloSimulation_Ok _ _ _ _ _ _ _ H)
    as (_ & _ & _ & _ & Hstat).
  destruct (calculateStatistics_Ok _ _ _ Hstat) as (Hpaths & Hfill & _).
  rewrite <- Hpaths in Hfill. unfold sortedPrices in Hfill.
  assert (Hne : finalPrices (paths r) <> []).
  { intros E. apply (f_equal (@List.length num)) in E.
    unfold finalPrices in E. rewrite length_map in E. simpl in E. lia. }
  destruct (accepted_range _ _ _ Hne Hfill) as (lo & hi & _ & _ & _ & _ & _ & Hall & _).
  assert (Hfin : Forall (fun p => exists q, p = Fin q) (finalPrices (paths r))).
  { eapply Forall_impl; [| exact Hall]. intros p (q & -> & _). eauto. }
  split; [exact Hfin |].
  eapply Permutation_Forall; [symmetry; exact Hperm | exact Hfin].
Qed.

Lemma filter_disjoint_length {A : Type} (f g : A -> bool) (l : list A) :
  Forall (fun x => f x && g x = false) l ->
  (List.length (filter f l) + List.length (filter g l) <= List.length l)%nat.
Proof.
  induction 1 as [| x l Hx Hl IH]; [reflexivity |].
  cbn [filter]. destruct (f x), (g x); cbn [List.length]; try discriminate; lia.
Qed.

Lemma thresholds_disjoint (p0 x : num) :
  positiveNum p0 -> (exists q, x = Fin q) ->
  (x >=? p0 * Fin (12 # 10)) && (x <=? p0 * Fin (9 # 10)) = false.
Proof.
  unfold positiveNum, nge. intros Hp (q & ->).
  destruct p0 as [p | | |]; simpl in Hp; try discriminate.
  - cbn [nmul nle]. qprops.
    destruct (Qle_bool (p * (12 # 10)) q) eqn:E1; [| reflexivity].
    destruct (Qle_bool q (p * (9 # 10))) eqn:E2; [| reflexivity].
    qprops. exfalso. lra.
  - reflexivity.
Qed.



Lemma sum_bounded (b : Q) (l : list num) :
  Forall (fun x => exists q, x = Fin q /\ (q <= b)%Q) l ->
  forall acc,
    exists s,
      fold_left (fun sum x => sum + x) l (Fin acc) = Fin s /\
      (s <= acc + inject_Z (Z.of_nat (List.length l)) * b)%Q.
Proof.
  induction 1 as [| x l (q & -> & Hq) Hl IH]; intros acc.
  - exists acc. split; [reflexivity |]. simpl.
    change (inject_Z 0) with 0%Q. lra.
  - cbn [fold_left nadd]. destruct (IH (acc + q)%Q) as (s & Es & Hs).
    exists s. split; [exact Es |].
    cbn [List.length]. rewrite Nat2Z.inj_succ. unfold Z.succ.
    rewrite inject_Z_plus. change (inject_Z 1) with 1%Q.
    set (L := inject_Z (Z.of_nat (List.length l))) in *. clearbody L.
    assert (E : ((L + 1) * b == L * b + b)%Q) by ring.
    rewrite E. lra.
Qed.

(** The mean of the first [k + 1] prices of a sorted array is not above
    the price at index [k]. *)
Lemma prefix_mean_le (sorted : list num) (k : nat) :
  StronglySorted nleP sorted ->
  Forall (fun p => exists q, p = Fin q) sorted ->
  (k < List.length sorted)%nat ->
  exists m b,
    nth_error sorted k = Some (Fin b) /\
    sumOf (fun price => price) (firstn (S k) sorted) / (ofNat k + Fin 1)
    = Fin m /\
    (m <= b)%Q.
Proof.
  intros Hs Hfin Hk.
  assert (Hnan : noNaN sorted).
  { eapply Forall_impl; [| exact Hfin]. intros p (q & ->). reflexivity. }
  destruct (nth_error_defined sorted k Hk) as (sb & Eb).
  assert (Hb : exists b, sb = Fin b).
  { rewrite Forall_forall in Hfin. apply Hfin.
    eapply nth_error_In. exact Eb. }
  destruct Hb as (b & ->).
  assert (Hall : Forall (fun x => exists q, x = Fin q /\ (q <= b)%Q)
                   (firstn (S k) sorted)).
  { apply Forall_forall. intros x Hin.
    apply In_nth_error in Hin. destruct Hin as (i & Ei).
    rewrite nth_error_firstn in Ei.
    destruct (Nat.ltb i (S k)) eqn:Elt; [| discriminate].
    apply Nat.ltb_lt in Elt.
    pose proof (sorted_nth_le sorted Hs Hnan i k x (Fin b)
                  ltac:(lia) Ei Eb) as Hle.
    rewrite Forall_forall in Hfin.
    destruct (Hfin x (nth_error_In _ _ Ei)) as (q & ->).
    exists q. split; [reflexivity |].
    unfold nleP in Hle. simpl in Hle. qprops. exact Hle. }
  destruct (sum_bounded b _ Hall 0%Q) as (s & Es & Hsb).
  rewrite length_firstn in Hsb.
  replace (Nat.min (S k) (List.length sorted)) with (S k) in Hsb by lia.
  rewrite Nat2Z.inj_succ in Hsb. unfold Z.succ in Hsb.
  rewrite inject_Z_plus in Hsb. change (inject_Z 1) with 1%Q in Hsb.
  assert (Hpos : (0 <= inject_Z (Z.of_nat k))%Q).
  { change 0%Q with (inject_Z 0). rewrite <- Zle_Qle. lia. }
  unfold sumOf. rewrite Es. unfold ofNat, ofZ. cbn [nadd].
  set (K := inject_Z (Z.of_nat k)) in *. clearbody K.
  rewrite ndiv_Fin by lra.
  exists (s / (K + 1))%Q, b. split; [exact Eb |]. split; [reflexivity |].
  apply Qle_shift_div_r; [lra |].
  assert (E : (b * (K + 1) == 0 + (K + 1) * b)%Q) by ring.
  rewrite E. exact Hsb.
Qed.

Lemma nsub_antitone (p0 : num) (m b : Q) :
  positiveNum p0 -> (m <= b)%Q -> nleP (p0 - Fin b) (p0 - Fin m).
Proof.
  unfold positiveNum, nleP. intros Hp Hmb.
  destruct p0 as [p | | |]; simpl in Hp; try discriminate.
  - cbn [nsub nadd nneg nle]. qprops. lra.
  - reflexivity.
Qed.



(** X26.  On a non-empty list of paths [calculateStatistics] returns
    exactly when every terminal price is finite and two terminal prices
    differ; in every other case the histogram loop reads the count of an
    undefined bin and the call ends in a TypeError. *)
Theorem calculateStatistics_returns_iff (ps : list (list num)) (p0 : num) :
  ps <> [] ->
  (isOk (calculateStatistics ps p0) = true <->
   Forall (fun p => isFinite p = true) (finalPrices ps) /\
   exists x y, In x (finalPrices ps) /\ In y (finalPrices ps) /\
               (x <? y) = true) /\
  (isOk (calculateStatistics ps p0) = false ->
   calculateStatistics ps p0 = Throw TypeError).
Proof.
  intros Hne. split; [split |].
  - intros Hok. apply isOk_exists in Hok. destruct Hok as (r & Hr).
    destruct (calculateStatistics_Ok _ _ _ Hr) as (_ & Hfill & _).
    unfold sortedPrices in Hfill.
    assert (Hfne : finalPrices ps <> []).
    { destruct ps; [congruence | discriminate]. }
    destruct (accepted_range _ _ _ Hfne Hfill)
      as (lo & hi & _ & _ & Hlh & Hlo & Hhi & Hall & _).
    split.
    + eapply Forall_impl; [| exact Hall]. intros p (q & -> & _). reflexivity.
    + exists (Fin lo), (Fin hi). repeat split; try assumption.
      simpl. qprops. exact Hlh.
  - intros (Hfin & Hdiff).
    destruct (calculateStatistics_returns ps p0 Hfin Hdiff) as (r & ->).
    reflexivity.
  - intros Hfail. pose proof (calculateStatistics_outcome ps p0) as Hout.
    destruct (fillHistogram _ _ _ (finalPrices ps)) as [h | e].
    + destruct Hout as (r & Hr). rewrite Hr in Hfail. discriminate.
    + exact Hout.
Qed.

Lemma calculateStatistics_returns_iff_witness :
  [[Fin 1]; [Fin 2]] <> [] /\
  (isOk (calculateStatistics [[Fin 1]; [Fin 2]] (Fin 1)) = true <->
   Forall (fun p => isFinite p = true) (finalPrices [[Fin 1]; [Fin 2]]) /\
   exists x y, In x (finalPrices [[Fin 1]; [Fin 2]]) /\
               In y (finalPrices [[Fin 1]; [Fin 2]]) /\
               (x <? y) = true) /\
  (isOk (calculateStatistics [[Fin 1]; [Fin 2]] (Fin 1)) = false ->
   calculateStatistics [[Fin 1]; [Fin 2]] (Fin 1) = Throw TypeError).
Proof.
  assert (H : [[Fin 1]; [Fin 2]] <> @nil (list num)) by discriminate.
  split; [exact H |].
  exact (calculateStatistics_returns_iff [[Fin 1]; [Fin 2]] (Fin 1) H).
Defined.




Lemma double_indices_agree_witness :
  (100 <= 250 <= 10000)%Z /\ doubleIndicesAgree 250 = true.
Proof.
  assert (H : (100 <= 250 <= 10000)%Z) by lia.
  split; [exact H |]. exact (double_indices_agree 250 H).
Defined.

Lemma double_probabilities_sum_witness :
  (1 <= 7 <= 512)%Z /\ (0 <= 3 <= 7)%Z /\ doubleProbabilitiesSum 7 3 = true.
Proof.
  assert (H1 : (1 <= 7 <= 512)%Z) by lia.
  assert (H2 : (0 <= 3 <= 7)%Z) by lia.
  split; [exact H1 |]. split; [exact H2 |].
  exact (double_probabilities_sum 7 3 H1 H2).
Defined.
